(** * Voice-activated servo: the generic service of [src/models/service.py]

    A shallow embedding of [Service.validate_config], [Service.reconfigure]
    and [Service.do_command], and the properties of the command table, the
    phrase matching and the move sequencing that follow from the code. *)

From Stdlib Require Import List String Ascii Bool ZArith QArith Lia.
Import ListNotations.
Open Scope string_scope.
Open Scope list_scope.
Open Scope Z_scope.
Set Warnings "-register-all".

(** ** Python values *)

(** A Python [float] (and a protobuf [number_value], a double). A finite
    double is modelled by the rational number it denotes: the source only
    compares angles with [0] and [180] and truncates them with [int()], and
    both operations are exact on that number. *)
Inductive number : Type :=
| Finite (q : Q)
| NaN
| PosInf
| NegInf.

(** Exceptions the service raises or lets through. [CollaboratorError] is
    whatever a collaborator (speech service, servo) raises from a call. *)
Inductive exn : Type :=
| ValueError (msg : string)
| OverflowError (msg : string)
| AttributeError (msg : string)
| KeyError (key : string)
| CollaboratorError (msg : string).

Inductive result (A : Type) : Type :=
| Ok (a : A)
| Raise (e : exn).
Arguments Ok {A} a.
Arguments Raise {A} e.

(** [viam.utils.ValueTypes]: what a [do_command] mapping carries. *)
Inductive pyval : Type :=
| PNone
| PBool (b : bool)
| PInt (z : Z)
| PFloat (x : number)
| PStr (s : string)
| PList (l : list pyval)
| PDict (d : list (string * pyval)).

(** A Python [dict] with string keys: its items in insertion order. *)
Definition pydict (V : Type) : Type := list (string * V).

Fixpoint dict_get {V : Type} (k : string) (d : pydict V) : option V :=
  match d with
  | [] => None
  | (k', v) :: rest => if String.eqb k k' then Some v else dict_get k rest
  end.

(** [d[k] = v]: an existing key keeps its position, a new key goes last. *)
Fixpoint dict_set {V : Type} (k : string) (v : V) (d : pydict V) : pydict V :=
  match d with
  | [] => [(k, v)]
  | (k', v') :: rest =>
      if String.eqb k k' then (k', v) :: rest else (k', v') :: dict_set k v rest
  end.

Definition dict_keys {V : Type} (d : pydict V) : list string := map fst d.

Definition dict_contains {V : Type} (k : string) (d : pydict V) : bool :=
  match dict_get k d with Some _ => true | None => false end.

(** The keys of a Python dict are pairwise distinct. *)
Definition dict_wf {V : Type} (d : pydict V) : Prop := NoDup (dict_keys d).

(** Python truthiness, as [if command.get(...)] tests it. *)
Definition truthy (v : pyval) : bool :=
  match v with
  | PNone => false
  | PBool b => b
  | PInt z => negb (z =? 0)
  | PFloat (Finite q) => negb (Qeq_bool q 0)
  | PFloat _ => true
  | PStr s => negb (String.eqb s "")
  | PList l => match l with [] => false | _ => true end
  | PDict d => match d with [] => false | _ => true end
  end.

(** [Mapping.get(k)]: [None] when the key is absent. *)
Definition mapping_get (k : string) (m : pydict pyval) : pyval :=
  match dict_get k m with Some v => v | None => PNone end.

(** ** Strings: [str.lower] and [in] *)

(** A Python [str] is modelled by its UTF-8 encoding.

    [str.lower] lower-cases by the rules of Unicode, which are not modelled
    here: [lower] is a parameter of the development, and everything proved
    of the service is proved for every such function. All that is used of
    it is that the empty string lower-cases to itself. *)
Class StrLower : Type := {
  lower : string -> string;
  lower_empty : lower "" = ""
}.

(** [str.lower] as it is on ASCII text: the letters [A] to [Z] go to [a] to
    [z] and every other character stays. It is the instance on which the
    model is run on concrete (ASCII) texts. *)
Definition lower_ascii (c : ascii) : ascii :=
  let n := nat_of_ascii c in
  if (Nat.leb 65 n && Nat.leb n 90)%bool then ascii_of_nat (n + 32) else c.

Fixpoint ascii_lower (s : string) : string :=
  match s with
  | EmptyString => EmptyString
  | String c rest => String (lower_ascii c) (ascii_lower rest)
  end.

Definition ascii_text : StrLower :=
  {| lower := ascii_lower; lower_empty := eq_refl |}.

(** [needle in hay] on strings: [needle] occurs in [hay] at some position.
    On UTF-8 encodings an occurrence of the bytes of [needle] is an
    occurrence of its characters. *)
Fixpoint contains (needle hay : string) : bool :=
  (String.prefix needle hay
   || match hay with
      | EmptyString => false
      | String _ rest => contains needle rest
      end)%bool.

(** ** The configuration: protobuf [Struct] and [Value] *)

Inductive Value : Type :=
| null_kind
| number_kind (x : number)
| string_kind (s : string)
| bool_kind (b : bool)
| struct_kind (fields : list (string * Value))
| list_kind (values : list Value).

(** The accessors of a [Value]: a field of another kind reads as that
    field's default. *)
Definition number_value (v : Value) : number :=
  match v with number_kind x => x | _ => Finite 0 end.

Definition string_value (v : Value) : string :=
  match v with string_kind s => s | _ => "" end.

Definition struct_value_fields (v : Value) : list (string * Value) :=
  match v with struct_kind fs => fs | _ => [] end.

Definition list_value_values (v : Value) : list Value :=
  match v with list_kind vs => vs | _ => [] end.

(** [fields[k]] on a message-valued protobuf map: a missing key reads as the
    empty [Value]. *)
Definition fields_get (k : string) (fs : list (string * Value)) : Value :=
  match dict_get k fs with Some v => v | None => null_kind end.

(** [ComponentConfig]: only [config.attributes.fields] is read. *)
Record ComponentConfig : Type := {
  attributes_fields : list (string * Value)
}.

(** ** [Service.validate_config] *)

(** [0 <= angle <= 180] on a Python float; every comparison with NaN is
    false. *)
Definition in_range (x : number) : bool :=
  match x with
  | Finite q => (Qle_bool 0 q && Qle_bool q 180)%bool
  | NaN => false
  | PosInf => false
  | NegInf => false
  end.

Fixpoint check_angles (phrase : string) (angles_list : list Value) : result unit :=
  match angles_list with
  | [] => Ok tt
  | angle_value :: rest =>
      let angle := number_value angle_value in
      if negb (in_range angle)
      then Raise (ValueError ("command angles for '" ++ phrase
                              ++ "' must be integers between 0 and 180")%string)
      else check_angles phrase rest
  end.

(** The loop over [commands.fields.items()]. Keys of a protobuf
    [map<string, Value>] are strings, so the [isinstance(phrase, str)] test
    never fails. *)
Fixpoint check_commands (items : list (string * Value)) : result unit :=
  match items with
  | [] => Ok tt
  | (phrase, angles_value) :: rest =>
      let angles_list := list_value_values angles_value in
      match angles_list with
      | [] => Raise (ValueError ("command angles for '" ++ phrase
                                 ++ "' cannot be empty")%string)
      | _ :: _ =>
          match check_angles phrase angles_list with
          | Raise e => Raise e
          | Ok _ => check_commands rest
          end
      end
  end.

Definition validate_config (config : ComponentConfig)
  : result (list string * list string) :=
  let fields := attributes_fields config in
  if negb (dict_contains "speech_service" fields)
  then Raise (ValueError "speech_service is required")
  else if negb (dict_contains "servo" fields)
  then Raise (ValueError "servo is required")
  else if negb (dict_contains "commands" fields)
  then Raise (ValueError "commands is required")
  else
    let speech_service_name := string_value (fields_get "speech_service" fields) in
    let servo_name := string_value (fields_get "servo" fields) in
    let commands := struct_value_fields (fields_get "commands" fields) in
    match check_commands commands with
    | Raise e => Raise e
    | Ok _ => Ok ([speech_service_name; servo_name], [])
    end.

(** ** Collaborators and the service instance *)

(** [viam.proto.common.ResourceName]. *)
Record ResourceName : Type := {
  namespace : string;
  rtype : string;
  subtype : string;
  name : string
}.

(** The interfaces of the two collaborators. [resource] is a resolved
    dependency handle, [world] the state of everything outside the service.
    [get_commands r number] is [await r.get_commands(number=number)] and
    [move r angle] is [await r.move(angle)]; either may raise. *)
Class Collaborators : Type := {
  resource : Type;
  world : Type;
  get_commands :
    resource -> Z -> world -> result (option (list (option string))) * world;
  move : resource -> Z -> world -> result unit * world
}.

(** What the service does to the outside, in program order. *)
Inductive event {C : Collaborators} : Type :=
| EGetCommands (r : resource) (number : Z)
| EMove (r : resource) (angle : Z)
| ESleep (seconds : Z)
| ELogDebug (angle : Z) (phrase : string).

Section Model.
Context {C : Collaborators}.

(** The instance attributes; [None] is an attribute that was never set. *)
Record Service : Type := {
  speech_service : option resource;
  servo : option resource;
  commands : option (pydict (list Z))
}.

(** A fresh instance, before [new] calls [reconfigure]. *)
Definition fresh_instance : Service :=
  {| speech_service := None; servo := None; commands := None |}.

(** *** [Service.reconfigure] *)

(** [int(x)] on a float: truncation toward zero. *)
Definition int_of_float (x : number) : result Z :=
  match x with
  | Finite q => Ok (Z.quot (Qnum q) (Z.pos (Qden q)))
  | NaN => Raise (ValueError "cannot convert float NaN to integer")
  | PosInf => Raise (OverflowError "cannot convert float infinity to integer")
  | NegInf => Raise (OverflowError "cannot convert float infinity to integer")
  end.

(** The loop over [dependencies.items()]. *)
Fixpoint bind_dependencies (speech_service_name servo_name : string)
    (dependencies : list (ResourceName * resource)) (self : Service) : Service :=
  match dependencies with
  | [] => self
  | (resource_name, res) :: rest =>
      let self1 :=
        if String.eqb (name resource_name) speech_service_name
        then {| speech_service := Some res; servo := servo self;
                commands := commands self |}
        else self in
      let self2 :=
        if String.eqb (name resource_name) servo_name
        then {| speech_service := speech_service self1; servo := Some res;
                commands := commands self1 |}
        else self1 in
      bind_dependencies speech_service_name servo_name rest self2
  end.

(** The inner loop [angles.append(int(angle_value.number_value))]. *)
Fixpoint parse_angles (values : list Value) (angles : list Z) : result (list Z) :=
  match values with
  | [] => Ok angles
  | angle_value :: rest =>
      match int_of_float (number_value angle_value) with
      | Raise e => Raise e
      | Ok n => parse_angles rest (angles ++ [n])
      end
  end.

(** The loop over [commands_struct.fields.items()], on the dict being
    filled. A failure leaves the dict as far as it was filled. *)
Fixpoint parse_commands (items : list (string * Value))
    (table : pydict (list Z)) : result unit * pydict (list Z) :=
  match items with
  | [] => (Ok tt, table)
  | (phrase, angles_value) :: rest =>
      match parse_angles (list_value_values angles_value) [] with
      | Raise e => (Raise e, table)
      | Ok angles => parse_commands rest (dict_set phrase angles table)
      end
  end.

(** [reconfigure]; the calls of [self.logger] and the closing call of the
    base class, which does nothing, are left out. *)
Definition reconfigure (self : Service) (config : ComponentConfig)
    (dependencies : list (ResourceName * resource)) : result unit * Service :=
  let fields := attributes_fields config in
  let speech_service_name := string_value (fields_get "speech_service" fields) in
  let servo_name := string_value (fields_get "servo" fields) in
  let self1 := bind_dependencies speech_service_name servo_name dependencies self in
  let commands_struct := struct_value_fields (fields_get "commands" fields) in
  let (r, table) := parse_commands commands_struct [] in
  (r, {| speech_service := speech_service self1; servo := servo self1;
         commands := Some table |}).

(** [new]: the base class makes the instance and calls [reconfigure]. *)
Definition new (config : ComponentConfig)
    (dependencies : list (ResourceName * resource)) : result unit * Service :=
  reconfigure fresh_instance config dependencies.

(** *** [Service.do_command] *)

(** The outside world and the trace of what was done to it. *)
Record machine : Type := {
  outside : world;
  trace : list event
}.

(** Computations of [do_command]: they run on the machine and return or
    raise; what was done before an exception stays done. *)
Definition M (A : Type) : Type := machine -> result A * machine.

Definition ret {A : Type} (a : A) : M A := fun m => (Ok a, m).

Definition raise {A : Type} (e : exn) : M A := fun m => (Raise e, m).

Definition bind {A B : Type} (c : M A) (k : A -> M B) : M B :=
  fun m =>
    match c m with
    | (Ok a, m') => k a m'
    | (Raise e, m') => (Raise e, m')
    end.

Definition emit (e : event) : M unit :=
  fun m => (Ok tt, {| outside := outside m; trace := trace m ++ [e] |}).

Definition call {A : Type} (f : world -> result A * world) : M A :=
  fun m =>
    let (r, w) := f (outside m) in
    (r, {| outside := w; trace := trace m |}).

(** [self.attr]: [AttributeError] when the attribute was never set. *)
Definition attr {A : Type} (attr_name : string) (field : option A) : M A :=
  match field with
  | Some a => ret a
  | None => raise (AttributeError attr_name)
  end.

(** [d[k]] on a dict. *)
Definition getitem {V : Type} (d : pydict V) (k : string) : M V :=
  match dict_get k d with
  | Some v => ret v
  | None => raise (KeyError k)
  end.

End Model.

Declare Scope py_scope.
Delimit Scope py_scope with py.
Notation "x <- c ;; k" := (bind c (fun x => k))
  (at level 61, c at next level, right associativity) : py_scope.
Notation "c ;;; k" := (bind c (fun _ => k))
  (at level 61, right associativity) : py_scope.

Section Dispatch.
Context {L : StrLower} {C : Collaborators}.
Open Scope py_scope.

(** [for angle in angles: await self.servo.move(angle); await
    asyncio.sleep(1); self.logger.debug(...)]. *)
Fixpoint move_through (self : Service) (phrase : string) (angles : list Z)
  : M unit :=
  match angles with
  | [] => ret tt
  | angle :: rest =>
      sv <- attr "servo" (servo self) ;;
      emit (EMove sv angle) ;;;
      call (move sv angle) ;;;
      emit (ESleep 1) ;;;
      emit (ELogDebug angle phrase) ;;;
      move_through self phrase rest
  end.

(** [for phrase in self.commands.keys(): ...], with [commands_heard] as the
    list built so far. *)
Fixpoint scan_phrases (self : Service) (heard_text : string)
    (table : pydict (list Z)) (keys : list string)
    (commands_heard : list string) : M (list string) :=
  match keys with
  | [] => ret commands_heard
  | phrase :: rest =>
      if contains (lower phrase) (lower heard_text)
      then
        angles <- getitem table phrase ;;
        move_through self phrase angles ;;;
        scan_phrases self heard_text table rest (commands_heard ++ [phrase])
      else scan_phrases self heard_text table rest commands_heard
  end.

Definition no_voice_command_heard : pydict pyval :=
  [("status", PStr "no voice command heard")].

(** [do_command]; [Ok None] is the function falling off its end. *)
Definition do_command (self : Service) (command : pydict pyval)
  : M (option (pydict pyval)) :=
  if truthy (mapping_get "listen_for_command" command)
  then
    sp <- attr "speech_service" (speech_service self) ;;
    emit (EGetCommands sp 1) ;;;
    commands_from_queue <- call (get_commands sp 1) ;;
    match commands_from_queue with
    | None => ret (Some no_voice_command_heard)
    | Some [] => ret (Some no_voice_command_heard)
    | Some (None :: _) => ret (Some no_voice_command_heard)
    | Some (Some heard_text :: _) =>
        if String.eqb heard_text ""
        then ret (Some no_voice_command_heard)
        else
          table <- attr "commands" (commands self) ;;
          commands_heard <-
            scan_phrases self heard_text table (dict_keys table) [] ;;
          if (0 <? Z.of_nat (List.length commands_heard))
          then ret (Some [("status", PStr "voice commands heard");
                          ("voice_commands", PList (map PStr commands_heard));
                          ("heard", PStr heard_text)])
          else ret (Some [("status", PStr "no voice commands heard");
                          ("heard", PStr heard_text)])
    end
  else ret None.

End Dispatch.

(** ** The specification's reading of the code *)

(** The entries of the [commands] attribute of a configuration. *)
Definition commands_of (config : ComponentConfig) : list (string * Value) :=
  struct_value_fields (fields_get "commands" (attributes_fields config)).

Definition missing_required_key (config : ComponentConfig) : Prop :=
  dict_contains "speech_service" (attributes_fields config) = false
  \/ dict_contains "servo" (attributes_fields config) = false
  \/ dict_contains "commands" (attributes_fields config) = false.

(** A configuration is invalid when a required key is absent, some phrase
    has an empty angle list, or some angle is [bad]; [bad] is the part on
    which the specification and the code are compared. *)
Definition config_invalid (bad : number -> Prop) (config : ComponentConfig)
  : Prop :=
  missing_required_key config
  \/ exists phrase angles_value,
       In (phrase, angles_value) (commands_of config)
       /\ (list_value_values angles_value = []
           \/ exists angle_value,
                In angle_value (list_value_values angles_value)
                /\ bad (number_value angle_value)).

(** The number is a whole number. *)
Definition whole (x : number) : Prop :=
  exists (q : Q) (n : Z), x = Finite q /\ (q == inject_Z n)%Q.

(** An angle as the specification's contract rejects it: outside [0, 180],
    or not representable as a whole number. *)
Definition bad_angle_in_spec (x : number) : Prop :=
  in_range x = false \/ ~ whole x.

(** An angle as the code rejects it: the raw value is outside [0, 180]. *)
Definition bad_angle_in_code (x : number) : Prop :=
  in_range x = false.

Definition validation_fails (config : ComponentConfig) : Prop :=
  exists msg, validate_config config = Raise (ValueError msg).

(** The contract of the validator in the specification's words. *)
Definition validation_contract_in_spec (config : ComponentConfig) : Prop :=
  validation_fails config <-> config_invalid bad_angle_in_spec config.

(** A configuration with the three required keys. *)
Definition make_config (speech_service_name servo_name : string)
    (table : list (string * list number)) : ComponentConfig :=
  {| attributes_fields :=
       [("speech_service", string_kind speech_service_name);
        ("servo", string_kind servo_name);
        ("commands",
         struct_kind
           (map (fun entry =>
                   (fst entry, list_kind (map number_kind (snd entry))))
                table))] |}.

(** An entry of [commands] as the validation loop accepts it. *)
Definition entry_accepted (entry : string * Value) : Prop :=
  list_value_values (snd entry) <> []
  /\ Forall (fun a => in_range (number_value a) = true)
            (list_value_values (snd entry)).

(** The angle 90.5. *)
Definition config_with_fraction : ComponentConfig :=
  make_config "mic" "arm" [("wave", [Finite (181 # 2)])].

(** ** A concrete robot, for running the model *)

(** A speech buffer, the angles the servo reached, and the angles at which
    the servo fails. *)
Record demo_world : Type := {
  buffer : list (option string);
  reached : list Z;
  jammed : list Z
}.

Definition demo_get_commands (r : string) (number : Z) (w : demo_world)
  : result (option (list (option string))) * demo_world :=
  if String.eqb r "mic"
  then (Ok (Some (firstn (Z.to_nat number) (buffer w))),
        {| buffer := skipn (Z.to_nat number) (buffer w);
           reached := reached w; jammed := jammed w |})
  else (Raise (AttributeError "get_commands"), w).

Definition demo_move (r : string) (angle : Z) (w : demo_world)
  : result unit * demo_world :=
  if String.eqb r "arm"
  then if existsb (Z.eqb angle) (jammed w)
       then (Raise (CollaboratorError "servo jammed"), w)
       else (Ok tt, {| buffer := buffer w; reached := reached w ++ [angle];
                       jammed := jammed w |})
  else (Raise (AttributeError "move"), w).

Definition demo : Collaborators :=
  {| resource := string; world := demo_world;
     get_commands := demo_get_commands; move := demo_move |}.

Definition demo_service (sp sv : option string)
    (table : option (pydict (list Z))) : @Service demo :=
  @Build_Service demo sp sv table.

Definition resource_named (n : string) : ResourceName :=
  {| namespace := "rdk"; rtype := "component"; subtype := "generic"; name := n |}.

(** ** Building the command table *)

(** The stored angle [n] is the raw angle [x] truncated: [x] is a real
    number of [0, 180] and [n <= x < n + 1]. *)
Definition stored_as (angle_value : Value) (n : Z) : Prop :=
  exists q : Q,
    number_value angle_value = Finite q
    /\ (0 <= q)%Q /\ (q <= 180)%Q
    /\ (inject_Z n <= q)%Q /\ (q < inject_Z n + 1)%Q.

(** The angle 90.7. *)
Definition config_90_7 : ComponentConfig :=
  make_config "mic" "arm" [("wave", [Finite (907 # 10)])].

(** The angle 180.9. *)
Definition config_180_9 : ComponentConfig :=
  make_config "mic" "arm" [("wave", [Finite (1809 # 10)])].

(** ** Phrases of the table *)

(** The specification's invariant on phrases: every phrase of a table made
    from a validated configuration is a non-empty string. *)
Definition phrases_nonempty_in_spec {C : Collaborators}
    (config : ComponentConfig) : Prop :=
  forall names self dependencies self' table,
    validate_config config = Ok names ->
    reconfigure self config dependencies = (Ok tt, self') ->
    commands self' = Some table ->
    Forall (fun phrase => phrase <> "") (dict_keys table).

(** A configuration whose only phrase is the empty string. *)
Definition config_with_empty_phrase : ComponentConfig :=
  make_config "mic" "arm" [("", [Finite 90])].

(** ** Matching and sequencing, as the specification separates them *)

(** PhraseMatcher: the phrases of the table, in table order, whose
    lower-cased form occurs in the lower-cased text. *)
Definition match_phrases {L : StrLower} (heard_text : string)
    (table : pydict (list Z))
  : list string :=
  filter (fun phrase => contains (lower phrase) (lower heard_text))
         (dict_keys table).

Definition angles_of (table : pydict (list Z)) (phrase : string) : list Z :=
  match dict_get phrase table with Some angles => angles | None => [] end.

(** The moves planned for a list of matched phrases: each phrase's angles in
    order, phrase after phrase. *)
Definition planned_angles (table : pydict (list Z)) (matched : list string)
  : list Z :=
  flat_map (angles_of table) matched.

(** The same plan with every angle tagged by its phrase. *)
Definition steps_of (table : pydict (list Z)) (matched : list string)
  : list (string * Z) :=
  flat_map (fun phrase => map (pair phrase) (angles_of table phrase)) matched.

Section Sequencer.
Context {C : Collaborators}.
Open Scope py_scope.

(** What one step of the plan does to the outside when the move returns. *)
Definition step_events (sv : resource) (step : string * Z) : list event :=
  [EMove sv (snd step); ESleep 1; ELogDebug (snd step) (fst step)].

(** MoveSequencer: for each step, the move, then the one-unit sleep. *)
Fixpoint sequence (sv : resource) (steps : list (string * Z)) : M unit :=
  match steps with
  | [] => ret tt
  | (phrase, angle) :: rest =>
      emit (EMove sv angle) ;;;
      call (move sv angle) ;;;
      emit (ESleep 1) ;;;
      emit (ELogDebug angle phrase) ;;;
      sequence sv rest
  end.

(** The servo performs all of [angles] from [w] without failing, and ends
    in the returned world. *)
Fixpoint moves_succeed (sv : resource) (angles : list Z) (w : world)
  : option world :=
  match angles with
  | [] => Some w
  | angle :: rest =>
      match move sv angle w with
      | (Ok _, w') => moves_succeed sv rest w'
      | (Raise _, _) => None
      end
  end.

(** The angles of the move commands of a trace, in order. *)
Fixpoint moves_of (events : list event) : list Z :=
  match events with
  | [] => []
  | EMove _ angle :: rest => angle :: moves_of rest
  | _ :: rest => moves_of rest
  end.

End Sequencer.

(** The utterance a dispatch works on: the first of the returned sequence,
    unless the sequence is missing or empty or that utterance is null or
    empty. *)
Definition first_utterance (queue : option (list (option string)))
  : option string :=
  match queue with
  | Some (Some heard_text :: _) =>
      if String.eqb heard_text "" then None else Some heard_text
  | _ => None
  end.

(** The mapping [do_command] returns after a dispatch that heard
    [heard_text] and matched [matched]. *)
Definition listen_outcome (heard_text : string) (matched : list string)
  : pydict pyval :=
  match matched with
  | [] => [("status", PStr "no voice commands heard");
           ("heard", PStr heard_text)]
  | _ :: _ => [("status", PStr "voice commands heard");
               ("voice_commands", PList (map PStr matched));
               ("heard", PStr heard_text)]
  end.

(** The status tags of the specification, as names of the three status
    strings of the code. *)
Inductive status_tag : Type :=
| no_command_heard
| commands_heard
| no_commands_matched.

Definition status_of (out : pydict pyval) : option status_tag :=
  match dict_get "status" out with
  | Some (PStr s) =>
      if String.eqb s "no voice command heard" then Some no_command_heard
      else if String.eqb s "voice commands heard" then Some commands_heard
      else if String.eqb s "no voice commands heard" then Some no_commands_matched
      else None
  | _ => None
  end.

(** The outcome of a dispatch that heard a text, in the specification's
    words: with matches, [commands_heard] with the matched phrases and the
    text; without, [no_commands_matched] with the text and an empty list of
    matched phrases. *)
Definition outcome_in_spec (heard_text : string) (matched : list string)
    (out : pydict pyval) : Prop :=
  dict_get "heard" out = Some (PStr heard_text)
  /\ dict_get "voice_commands" out = Some (PList (map PStr matched))
  /\ status_of out
     = Some (match matched with [] => no_commands_matched | _ => commands_heard end).

(** ** A table and machines to run dispatches on *)

(** The table [{"a": [10], "b": [20, 30]}]. *)
Definition table_a_b : pydict (list Z) := [("a", [10]); ("b", [20; 30])].

Definition listen : pydict pyval := [("listen_for_command", PBool true)].

(** A machine whose speech buffer holds [utterances] and whose servo fails
    at the angles of [failing]. *)
Definition demo_machine (utterances : list (option string)) (failing : list Z)
  : @machine demo :=
  @Build_machine demo
    {| buffer := utterances; reached := []; jammed := failing |} [].

Definition service_a_b : @Service demo :=
  demo_service (Some "mic") (Some "arm") (Some table_a_b).

(** The table [{"Wave": [10], "BOW": [20, 30]}]. *)
Definition table_wave_bow : pydict (list Z) :=
  [("Wave", [10]); ("BOW", [20; 30])].

Definition service_wave_bow : @Service demo :=
  demo_service (Some "mic") (Some "arm") (Some table_wave_bow).

(** ** Further readings of the code *)

(** The float has a value: it is neither NaN nor an infinity. *)
Definition finite (x : number) : bool :=
  match x with
  | Finite _ => true
  | _ => false
  end.

(** Every angle of the entry is a finite number. *)
Definition entry_finite (entry : string * Value) : Prop :=
  Forall (fun a => finite (number_value a) = true)
         (list_value_values (snd entry)).

(** The three required keys are there. *)
Definition has_required_keys (config : ComponentConfig) : Prop :=
  dict_contains "speech_service" (attributes_fields config) = true
  /\ dict_contains "servo" (attributes_fields config) = true
  /\ dict_contains "commands" (attributes_fields config) = true.

(** The names [reconfigure] looks the dependencies up by. *)
Definition speech_service_name_of (config : ComponentConfig) : string :=
  string_value (fields_get "speech_service" (attributes_fields config)).

Definition servo_name_of (config : ComponentConfig) : string :=
  string_value (fields_get "servo" (attributes_fields config)).

(** No dependency of the list bears the name. *)
Definition unnamed {R : Type} (n : string) (dependencies : list (ResourceName * R))
  : Prop :=
  Forall (fun d => name (fst d) <> n) dependencies.

Section Events.
Context {L : StrLower} {C : Collaborators}.

(** The calls of [get_commands] in a trace, with their [number]. *)
Fixpoint polls_of (events : list event) : list (resource * Z) :=
  match events with
  | [] => []
  | EGetCommands r number :: rest => (r, number) :: polls_of rest
  | _ :: rest => polls_of rest
  end.

(** The seconds slept in a trace. *)
Fixpoint sleeps_of (events : list event) : list Z :=
  match events with
  | [] => []
  | ESleep seconds :: rest => seconds :: sleeps_of rest
  | _ :: rest => sleeps_of rest
  end.

(** An event that moving through the angles of one phrase may produce. *)
Definition through_event (self : Service) (phrase : string) (angles : list Z)
    (ev : event) : Prop :=
  match ev with
  | EGetCommands _ _ => False
  | EMove r angle => servo self = Some r /\ In angle angles
  | ESleep seconds => seconds = 1
  | ELogDebug angle p => p = phrase /\ In angle angles
  end.

(** An event that the loop over the phrases [keys] may produce. *)
Definition loop_event (self : Service) (heard_text : string)
    (table : pydict (list Z)) (keys : list string) (ev : event) : Prop :=
  exists phrase,
    In phrase keys
    /\ contains (lower phrase) (lower heard_text) = true
    /\ through_event self phrase (angles_of table phrase) ev.

End Events.

(** * Proofs *)

(** ** Validation *)

Lemma check_angles_ok (phrase : string) (angles_list : list Value) :
  Forall (fun a => in_range (number_value a) = true) angles_list ->
  check_angles phrase angles_list = Ok tt.
Proof.
  induction 1 as [|a l Ha _ IH]; simpl; [reflexivity|].
  rewrite Ha. simpl. exact IH.
Qed.

Lemma check_angles_raise (phrase : string) (angles_list : list Value) :
  Exists (fun a => in_range (number_value a) = false) angles_list ->
  exists msg, check_angles phrase angles_list = Raise (ValueError msg).
Proof.
  induction angles_list as [|a l IH]; intros H; [inversion H|].
  simpl. destruct (in_range (number_value a)) eqn:Ha; simpl.
  - inversion H as [? ? Hb|? ? Hb]; subst; [congruence|]. apply IH, Hb.
  - eexists. reflexivity.
Qed.

Lemma entry_accepted_dec (entry : string * Value) :
  {entry_accepted entry} + {~ entry_accepted entry}.
Proof.
  unfold entry_accepted.
  destruct (list_value_values (snd entry)) as [|a l] eqn:E.
  - right. intros [H _]. apply H. reflexivity.
  - destruct (Forall_dec (fun a => in_range (number_value a) = true)
                (fun a => bool_dec (in_range (number_value a)) true) (a :: l))
      as [H|H].
    + left. split; [discriminate|exact H].
    + right. intros [_ H']. exact (H H').
Qed.

Lemma check_commands_ok (items : list (string * Value)) :
  Forall entry_accepted items -> check_commands items = Ok tt.
Proof.
  induction 1 as [|[phrase v] l [Hne Hall] _ IH]; simpl; [reflexivity|].
  simpl in Hne, Hall.
  destruct (list_value_values v) as [|a vs] eqn:E; [congruence|].
  rewrite (check_angles_ok phrase (a :: vs) Hall). exact IH.
Qed.

Lemma check_commands_raise (items : list (string * Value)) :
  Exists (fun entry => ~ entry_accepted entry) items ->
  exists msg, check_commands items = Raise (ValueError msg).
Proof.
  induction items as [|[phrase v] l IH]; intros H; [inversion H|].
  simpl. destruct (list_value_values v) as [|a vs] eqn:E.
  - eexists. reflexivity.
  - destruct (entry_accepted_dec (phrase, v)) as [[_ Hall]|Hbad].
    + simpl in Hall. rewrite E in Hall.
      rewrite (check_angles_ok phrase (a :: vs) Hall).
      inversion H as [? ? Hb|? ? Hb]; subst.
      * exfalso. apply Hb. split; simpl; rewrite E; [discriminate|exact Hall].
      * apply IH, Hb.
    + assert (Hex : Exists (fun a => in_range (number_value a) = false) (a :: vs)).
      { apply Exists_exists.
        destruct (Forall_Exists_dec (fun a => in_range (number_value a) = true)
                    (fun a => bool_dec (in_range (number_value a)) true) (a :: vs))
          as [Hall|Hex].
        - exfalso. apply Hbad. split; simpl; rewrite E; [discriminate|exact Hall].
        - apply Exists_exists in Hex. destruct Hex as [x [Hin Hx]].
          exists x. split; [exact Hin|].
          destruct (in_range (number_value x)); congruence. }
      destruct (check_angles_raise phrase (a :: vs) Hex) as [msg Hmsg].
      rewrite Hmsg. eexists. reflexivity.
Qed.

Lemma entry_rejected_iff (items : list (string * Value)) :
  Exists (fun entry => ~ entry_accepted entry) items <->
  exists phrase angles_value,
    In (phrase, angles_value) items
    /\ (list_value_values angles_value = []
        \/ exists angle_value,
             In angle_value (list_value_values angles_value)
             /\ bad_angle_in_code (number_value angle_value)).
Proof.
  rewrite Exists_exists. split.
  - intros [[phrase v] [Hin Hbad]]. exists phrase, v. split; [exact Hin|].
    destruct (list_value_values v) as [|a vs] eqn:E; [left; reflexivity|].
    right.
    destruct (Forall_Exists_dec (fun a => in_range (number_value a) = true)
                (fun a => bool_dec (in_range (number_value a)) true) (a :: vs))
      as [Hall|Hex].
    + exfalso. apply Hbad. split; simpl; rewrite E; [discriminate|exact Hall].
    + apply Exists_exists in Hex. destruct Hex as [x [Hx Hr]].
      exists x. split; [exact Hx|]. unfold bad_angle_in_code.
      destruct (in_range (number_value x)); congruence.
  - intros [phrase [v [Hin Hbad]]]. exists (phrase, v). split; [exact Hin|].
    intros [Hne Hall]. simpl in Hne, Hall.
    destruct Hbad as [He|[a [Ha Hr]]]; [congruence|].
    rewrite Forall_forall in Hall. specialize (Hall a Ha).
    unfold bad_angle_in_code in Hr. congruence.
Qed.

(** Validation either rejects an invalid configuration or returns the two
    dependency names. *)
Lemma validate_config_cases (config : ComponentConfig) :
  (config_invalid bad_angle_in_code config /\ validation_fails config)
  \/ (~ config_invalid bad_angle_in_code config
      /\ validate_config config
         = Ok ([string_value (fields_get "speech_service" (attributes_fields config));
                string_value (fields_get "servo" (attributes_fields config))],
               [])).
Proof.
  unfold config_invalid, missing_required_key, validation_fails, validate_config.
  destruct (dict_contains "speech_service" (attributes_fields config)) eqn:E1;
    simpl; [|left; split; [auto|eexists; reflexivity]].
  destruct (dict_contains "servo" (attributes_fields config)) eqn:E2;
    simpl; [|left; split; [auto|eexists; reflexivity]].
  destruct (dict_contains "commands" (attributes_fields config)) eqn:E3;
    simpl; [|left; split; [auto|eexists; reflexivity]].
  fold (commands_of config).
  destruct (Forall_Exists_dec entry_accepted entry_accepted_dec (commands_of config))
    as [Hall|Hex].
  - right. rewrite (check_commands_ok _ Hall). split; [|reflexivity].
    intros [[H|[H|H]]|H]; try discriminate.
    apply entry_rejected_iff in H. apply Exists_exists in H.
    destruct H as [entry [Hin Hbad]]. rewrite Forall_forall in Hall.
    exact (Hbad (Hall entry Hin)).
  - left. split.
    + right. apply entry_rejected_iff, Hex.
    + destruct (check_commands_raise _ Hex) as [msg Hmsg]. rewrite Hmsg.
      exists msg. reflexivity.
Qed.

(** C1 (as amended): [validate_config] fails with a [ValueError] exactly
    when a required key ([speech_service], [servo], [commands]) is absent,
    some phrase has an empty angle list, or some angle's raw value lies
    outside [0, 180] (NaN and the infinities included); a fractional angle
    inside the range is accepted. Otherwise it succeeds and returns the
    speech-service and servo names as the required dependencies. *)
Theorem validate_config_outcome (config : ComponentConfig) :
  (config_invalid bad_angle_in_code config /\ validation_fails config)
  \/ (~ config_invalid bad_angle_in_code config
      /\ validate_config config
         = Ok ([string_value (fields_get "speech_service" (attributes_fields config));
                string_value (fields_get "servo" (attributes_fields config))],
               [])).
Proof.
  exact (validate_config_cases config).
Qed.

(** C1 (as the specification states it) fails: a configuration whose only
    angle is 90.5 has an angle that is not a whole number, and validation
    accepts it. *)
Lemma validation_contract_in_spec_fails :
  ~ validation_contract_in_spec config_with_fraction.
Proof.
  unfold validation_contract_in_spec. intros [_ H].
  assert (Hbad : config_invalid bad_angle_in_spec config_with_fraction).
  { right. exists "wave", (list_kind [number_kind (Finite (181 # 2))]).
    split; [left; reflexivity|]. right.
    exists (number_kind (Finite (181 # 2))). split; [left; reflexivity|].
    right. intros [q [n [Hq Hn]]]. simpl in Hq. injection Hq as <-.
    unfold Qeq in Hn. simpl in Hn. lia. }
  destruct (H Hbad) as [msg Hmsg]. vm_compute in Hmsg. discriminate.
Qed.

(** ** Building the command table *)

Lemma in_range_finite (x : number) :
  in_range x = true -> exists q, x = Finite q /\ (0 <= q)%Q /\ (q <= 180)%Q.
Proof.
  destruct x as [q| | |]; simpl; try discriminate.
  intros H. apply andb_true_iff in H. destruct H as [H1 H2].
  apply Qle_bool_iff in H1. apply Qle_bool_iff in H2.
  exists q. auto.
Qed.

Lemma int_of_float_in_range (angle_value : Value) :
  in_range (number_value angle_value) = true ->
  exists n, int_of_float (number_value angle_value) = Ok n
            /\ stored_as angle_value n.
Proof.
  intros H. destruct (in_range_finite _ H) as [q [Hq [H0 H180]]].
  rewrite Hq. simpl. eexists. split; [reflexivity|].
  exists q. repeat split; try assumption.
  - destruct q as [a b]. unfold Qle in *. simpl in *.
    rewrite Z.quot_div_nonneg by lia.
    pose proof (Z.div_mod a (Z.pos b)) as Hd.
    pose proof (Z.mod_pos_bound a (Z.pos b)) as Hm. nia.
  - destruct q as [a b]. unfold Qle, Qlt in *. simpl in *.
    rewrite Z.quot_div_nonneg by lia.
    pose proof (Z.div_mod a (Z.pos b)) as Hd.
    pose proof (Z.mod_pos_bound a (Z.pos b)) as Hm. nia.
Qed.

Lemma parse_angles_ok (values : list Value) (angles : list Z) :
  Forall (fun a => in_range (number_value a) = true) values ->
  exists stored, parse_angles values angles = Ok (angles ++ stored)
                 /\ Forall2 stored_as values stored.
Proof.
  intros H. revert angles.
  induction H as [|a l Ha _ IH]; intros angles; simpl.
  - exists []. rewrite app_nil_r. split; [reflexivity|constructor].
  - destruct (int_of_float_in_range a Ha) as [n [Hn Hs]]. rewrite Hn.
    destruct (IH (angles ++ [n])) as [stored [Hp Hf]].
    exists (n :: stored). rewrite Hp, <- app_assoc. simpl.
    split; [reflexivity|constructor; assumption].
Qed.

Lemma dict_keys_set {V : Type} (k : string) (v : V) (d : pydict V) :
  forall p, In p (dict_keys (dict_set k v d)) <-> p = k \/ In p (dict_keys d).
Proof.
  induction d as [|[k' v'] rest IH]; intros p; simpl.
  - intuition.
  - destruct (String.eqb_spec k k') as [->|Hne]; simpl.
    + intuition.
    + unfold dict_keys in IH. rewrite IH. intuition.
Qed.

Lemma dict_items_set {V : Type} (k : string) (v : V) (d : pydict V) :
  forall p x, In (p, x) (dict_set k v d) -> (p = k /\ x = v) \/ In (p, x) d.
Proof.
  induction d as [|[k' v'] rest IH]; intros p x; simpl.
  - intros [H|[]]. injection H as <- <-. auto.
  - destruct (String.eqb_spec k k') as [->|Hne]; simpl.
    + intros [H|H]; [injection H as <- <-; auto|auto].
    + intros [H|H]; [auto|]. destruct (IH _ _ H); auto.
Qed.

Lemma dict_wf_set {V : Type} (k : string) (v : V) (d : pydict V) :
  dict_wf d -> dict_wf (dict_set k v d).
Proof.
  unfold dict_wf. induction d as [|[k' v'] rest IH]; simpl; intros H.
  - constructor; [intros []|constructor].
  - inversion H as [|? ? Hnin Hnd]; subst.
    destruct (String.eqb_spec k k') as [->|Hne]; simpl.
    + constructor; assumption.
    + constructor; [|apply IH, Hnd].
      intros Hin. apply (dict_keys_set k v rest) in Hin.
      destruct Hin as [->|Hin]; [congruence|exact (Hnin Hin)].
Qed.

(** On entries that validation accepts, the table loop succeeds, gives the
    table every phrase of the configuration, keeps keys distinct, and
    stores every angle truncated. *)
Lemma parse_commands_ok (items : list (string * Value)) :
  Forall entry_accepted items ->
  forall table0 : pydict (list Z),
  exists table,
    parse_commands items table0 = (Ok tt, table)
    /\ (forall p, In p (dict_keys table) <->
                  In p (dict_keys table0) \/ In p (map fst items))
    /\ (dict_wf table0 -> dict_wf table)
    /\ (forall p angles, In (p, angles) table ->
          In (p, angles) table0
          \/ exists v, In (p, v) items
                       /\ Forall2 stored_as (list_value_values v) angles).
Proof.
  induction 1 as [|[phrase v] l [_ Hall] _ IH]; intros table0; simpl.
  - exists table0. repeat split; intuition.
  - simpl in Hall.
    destruct (parse_angles_ok _ [] Hall) as [stored [Hp Hf]]. rewrite Hp. simpl.
    destruct (IH (dict_set phrase stored table0)) as [table [Ht [Hk [Hw He]]]].
    exists table. split; [exact Ht|]. split; [|split].
    + intros p. rewrite Hk, dict_keys_set. intuition.
    + intros H0. apply Hw, dict_wf_set, H0.
    + intros p angles Hin. destruct (He p angles Hin) as [H0|[v' [Hv Hs]]].
      * apply dict_items_set in H0. destruct H0 as [[-> ->]|H0]; [|auto].
        right. exists v. auto.
      * right. exists v'. auto.
Qed.

Lemma validate_ok_entries (config : ComponentConfig)
    (names : list string * list string) :
  validate_config config = Ok names ->
  Forall entry_accepted (commands_of config).
Proof.
  intros Hv.
  destruct (Forall_Exists_dec entry_accepted entry_accepted_dec (commands_of config))
    as [Hall|Hex]; [exact Hall|exfalso].
  destruct (validate_config_cases config) as [[_ [msg Hm]]|[Hn _]].
  - congruence.
  - apply Hn. right. apply entry_rejected_iff, Hex.
Qed.

Lemma dict_get_key {V : Type} (k : string) (d : pydict V) :
  In k (dict_keys d) -> exists v, dict_get k d = Some v.
Proof.
  induction d as [|[k' v'] rest IH]; simpl; intros H; [contradiction|].
  destruct (String.eqb_spec k k') as [->|Hne]; [eauto|].
  destruct H as [H|H]; [congruence|auto].
Qed.

Lemma dict_get_In {V : Type} (k : string) (v : V) (d : pydict V) :
  dict_get k d = Some v -> In (k, v) d.
Proof.
  induction d as [|[k' v'] rest IH]; simpl; [discriminate|].
  destruct (String.eqb_spec k k') as [->|Hne].
  - intros H. injection H as ->. left. reflexivity.
  - intros H. right. apply IH, H.
Qed.

(** On a configuration that passed validation, [reconfigure] returns and
    publishes a table built from the configuration's entries. *)
Lemma reconfigure_validated {C : Collaborators} (self : Service)
    (config : ComponentConfig) (dependencies : list (ResourceName * resource))
    (names : list string * list string) :
  validate_config config = Ok names ->
  exists self' table,
    reconfigure self config dependencies = (Ok tt, self')
    /\ commands self' = Some table
    /\ dict_wf table
    /\ (forall p, In p (dict_keys table) <-> In p (map fst (commands_of config)))
    /\ (forall p angles, In (p, angles) table ->
          exists v, In (p, v) (commands_of config)
                    /\ Forall2 stored_as (list_value_values v) angles).
Proof.
  intros Hv. pose proof (validate_ok_entries config names Hv) as Hall.
  destruct (parse_commands_ok (commands_of config) Hall [])
    as [table [Hp [Hk [Hw He]]]].
  unfold reconfigure. fold (commands_of config). rewrite Hp.
  eexists. exists table. split; [reflexivity|]. split; [reflexivity|].
  split; [apply Hw; constructor|]. split.
  - intros p. rewrite Hk. simpl. intuition.
  - intros p angles Hin. destruct (He p angles Hin) as [[]|H]. exact H.
Qed.

(** C7: angle values are accepted as real numbers, the range check is on
    the raw real value (every angle of a configuration that passes
    validation is a real [q] with [0 <= q <= 180], so 180.9 is rejected),
    and the value is truncated only when [reconfigure] builds the table:
    every configured phrase is stored, and the stored integer [n] of an
    angle [q] satisfies [n <= q < n + 1] (90.7 is stored as 90, not rounded
    to 91). *)
Theorem angles_checked_raw_then_truncated {C : Collaborators} (self : Service)
    (config : ComponentConfig) (dependencies : list (ResourceName * resource))
    (names : list string * list string) :
  validate_config config = Ok names ->
  (forall phrase angles_value angle_value,
      In (phrase, angles_value) (commands_of config) ->
      In angle_value (list_value_values angles_value) ->
      exists q, number_value angle_value = Finite q
                /\ (0 <= q)%Q /\ (q <= 180)%Q)
  /\ exists self' table,
       reconfigure self config dependencies = (Ok tt, self')
       /\ commands self' = Some table
       /\ (forall phrase angles, In (phrase, angles) table ->
            exists angles_value,
              In (phrase, angles_value) (commands_of config)
              /\ Forall2 stored_as (list_value_values angles_value) angles)
       /\ (forall phrase, In phrase (map fst (commands_of config)) ->
            exists angles_value angles,
              In (phrase, angles_value) (commands_of config)
              /\ dict_get phrase table = Some angles
              /\ Forall2 stored_as (list_value_values angles_value) angles).
Proof.
  intros Hv. split.
  - intros phrase v a Hin Ha.
    pose proof (validate_ok_entries config names Hv) as Hall.
    rewrite Forall_forall in Hall. destruct (Hall _ Hin) as [_ Hr].
    simpl in Hr. rewrite Forall_forall in Hr.
    apply in_range_finite, Hr, Ha.
  - destruct (reconfigure_validated self config dependencies names Hv)
      as [self' [table [Hr [Hc [_ [Hk He]]]]]].
    exists self', table. split; [exact Hr|]. split; [exact Hc|].
    split; [exact He|]. intros phrase Hin.
    destruct (dict_get_key phrase table (proj2 (Hk phrase) Hin))
      as [angles Hget].
    destruct (He phrase angles (dict_get_In _ _ _ Hget)) as [v [Hv' Hs]].
    exists v, angles. auto.
Qed.

Lemma angles_checked_raw_then_truncated_witness :
  validate_config config_90_7 = Ok (["mic"; "arm"], [])
  /\ (forall phrase angles_value angle_value,
        In (phrase, angles_value) (commands_of config_90_7) ->
        In angle_value (list_value_values angles_value) ->
        exists q, number_value angle_value = Finite q
                  /\ (0 <= q)%Q /\ (q <= 180)%Q)
  /\ exists self' table,
       reconfigure (C := demo) fresh_instance config_90_7 [] = (Ok tt, self')
       /\ commands self' = Some table
       /\ (forall phrase angles, In (phrase, angles) table ->
            exists angles_value,
              In (phrase, angles_value) (commands_of config_90_7)
              /\ Forall2 stored_as (list_value_values angles_value) angles)
       /\ (forall phrase, In phrase (map fst (commands_of config_90_7)) ->
            exists angles_value angles,
              In (phrase, angles_value) (commands_of config_90_7)
              /\ dict_get phrase table = Some angles
              /\ Forall2 stored_as (list_value_values angles_value) angles)
       /\ table = [("wave", [90])].
Proof.
  split; [reflexivity|].
  destruct (angles_checked_raw_then_truncated (C := demo) fresh_instance
              config_90_7 [] (["mic"; "arm"], []) eq_refl)
    as [Hraw [self' [table [Hr [Hc [He Hs]]]]]].
  split; [exact Hraw|]. exists self', table.
  split; [exact Hr|]. split; [exact Hc|]. split; [exact He|].
  split; [exact Hs|].
  vm_compute in Hr. injection Hr as <-. simpl in Hc. injection Hc as <-.
  reflexivity.
Defined.

(** 90.7 passes validation and is stored as 90; 180.9 is rejected although
    its truncation, 180, lies in the range. *)
Example angle_90_7_stored_as_90 :
  validate_config config_90_7 = Ok (["mic"; "arm"], [])
  /\ reconfigure (C := demo) fresh_instance config_90_7 []
     = (Ok tt, {| speech_service := None; servo := None;
                  commands := Some [("wave", [90])] |}).
Proof. split; reflexivity. Qed.

Example angle_180_9_rejected :
  validate_config config_180_9
  = Raise (ValueError "command angles for 'wave' must be integers between 0 and 180")
  /\ int_of_float (Finite (1809 # 10)) = Ok 180.
Proof. split; reflexivity. Qed.

(** ** Phrases of the table *)

Lemma prefix_empty (s : string) : String.prefix "" s = true.
Proof. destruct s; reflexivity. Qed.

Lemma contains_empty (hay : string) : contains "" hay = true.
Proof. destruct hay; simpl; rewrite ?prefix_empty; reflexivity. Qed.

(** C9 (as amended): the phrases of a table made from a configuration that
    passed validation are exactly the string keys of the configuration's
    [commands] mapping. The empty string is not excluded: configured as a
    phrase it is a key of the table and reaches matching, where it is a
    substring of every heard text. *)
Theorem table_phrases_are_config_keys {L : StrLower}
    {C : Collaborators} (self : Service)
    (config : ComponentConfig) (dependencies : list (ResourceName * resource))
    (names : list string * list string) :
  validate_config config = Ok names ->
  exists self' table,
    reconfigure self config dependencies = (Ok tt, self')
    /\ commands self' = Some table
    /\ (forall phrase,
          In phrase (dict_keys table) <-> In phrase (map fst (commands_of config)))
    /\ (In "" (map fst (commands_of config)) ->
        In "" (dict_keys table)
        /\ forall heard_text, contains (lower "") (lower heard_text) = true).
Proof.
  intros Hv.
  destruct (reconfigure_validated self config dependencies names Hv)
    as [self' [table [Hr [Hc [_ [Hk _]]]]]].
  exists self', table. split; [exact Hr|]. split; [exact Hc|].
  split; [exact Hk|]. intros Hin. split.
  - apply Hk, Hin.
  - intros heard_text. rewrite lower_empty. apply contains_empty.
Qed.

Lemma table_phrases_are_config_keys_witness :
  validate_config config_with_empty_phrase = Ok (["mic"; "arm"], [])
  /\ exists self' table,
       reconfigure (C := demo) fresh_instance config_with_empty_phrase []
       = (Ok tt, self')
       /\ commands self' = Some table
       /\ (forall phrase,
             In phrase (dict_keys table)
             <-> In phrase (map fst (commands_of config_with_empty_phrase)))
       /\ (In "" (map fst (commands_of config_with_empty_phrase)) ->
           In "" (dict_keys table)
           /\ forall heard_text,
                contains (@lower ascii_text "") (@lower ascii_text heard_text)
                = true).
Proof.
  split; [reflexivity|].
  apply (table_phrases_are_config_keys (L := ascii_text) (C := demo)
              fresh_instance
           config_with_empty_phrase [] (["mic"; "arm"], [])).
  reflexivity.
Defined.

(** C9 (as the specification states it) fails: the configuration whose
    phrase is the empty string passes validation, and the table made from
    it has the empty string as a key. *)
Lemma phrases_nonempty_in_spec_fails :
  ~ phrases_nonempty_in_spec (C := demo) config_with_empty_phrase.
Proof.
  intros H.
  specialize (H (["mic"; "arm"], []) fresh_instance []
                {| speech_service := None; servo := None;
                   commands := Some [("", [90])] |}
                [("", [90])] eq_refl eq_refl eq_refl).
  inversion H as [|? ? Hne _]. apply Hne. reflexivity.
Qed.

(** ** Dependencies *)

(** C8 fails on the code: [reconfigure] with a configuration that names the
    servo [arm], given dependencies that hold only the speech service,
    returns normally and leaves the [servo] attribute unset; on an instance
    that already had a servo it keeps the old handle. No error is raised. *)
Lemma reconfigure_missing_servo_is_silent :
  reconfigure (C := demo) fresh_instance
    (make_config "mic" "arm" [("wave", [Finite 90])])
    [(resource_named "mic", "mic")]
  = (Ok tt, demo_service (Some "mic") None (Some [("wave", [90])]))
  /\ reconfigure (C := demo)
       (demo_service (Some "mic") (Some "arm") (Some [("wave", [90])]))
       (make_config "mic" "claw" [("wave", [Finite 90])])
       [(resource_named "mic", "mic")]
     = (Ok tt, demo_service (Some "mic") (Some "arm") (Some [("wave", [90])])).
Proof. split; reflexivity. Qed.

(** ** The dispatch loop refines match-then-sequence *)

Section DispatchFacts.
Context {L : StrLower} {C : Collaborators}.

Lemma sequence_app (sv : resource) (steps1 steps2 : list (string * Z))
    (m : machine) :
  sequence sv (steps1 ++ steps2) m
  = bind (sequence sv steps1) (fun _ => sequence sv steps2) m.
Proof.
  revert m. induction steps1 as [|[phrase angle] rest IH]; intros m.
  - reflexivity.
  - simpl. unfold bind at 1 2 3 4 5 6 7 8. unfold emit, call. simpl.
    destruct (move sv angle (outside m)) as [[u|e] w]; simpl.
    + rewrite IH. reflexivity.
    + reflexivity.
Qed.

Lemma move_through_sequence (self : Service) (sv : resource)
    (phrase : string) (angles : list Z) (m : machine) :
  servo self = Some sv ->
  move_through self phrase angles m = sequence sv (map (pair phrase) angles) m.
Proof.
  intros Hsv. revert m. induction angles as [|angle rest IH]; intros m.
  - reflexivity.
  - simpl. rewrite Hsv. unfold bind, attr, ret, emit, call. simpl.
    destruct (move sv angle (outside m)) as [[u|e] w]; simpl.
    + apply IH.
    + reflexivity.
Qed.

Lemma getitem_key (table : pydict (list Z)) (phrase : string) (m : machine) :
  In phrase (dict_keys table) ->
  getitem table phrase m = (Ok (angles_of table phrase), m).
Proof.
  intros H. destruct (dict_get_key phrase table H) as [v Hv].
  unfold getitem, angles_of. rewrite Hv. reflexivity.
Qed.

(** The loop of [do_command] over the phrases does what the sequencer does
    on the steps of the matched phrases, and returns the matched phrases. *)
Lemma scan_phrases_refines (self : Service) (sv : resource)
    (heard_text : string) (table : pydict (list Z)) (keys : list string) :
  servo self = Some sv ->
  (forall phrase, In phrase keys -> In phrase (dict_keys table)) ->
  forall (commands_heard : list string) (m : machine),
    scan_phrases self heard_text table keys commands_heard m
    = let matched :=
        filter (fun phrase => contains (lower phrase) (lower heard_text)) keys in
      match sequence sv (steps_of table matched) m with
      | (Ok _, m') => (Ok (commands_heard ++ matched), m')
      | (Raise e, m') => (Raise e, m')
      end.
Proof.
  intros Hsv. induction keys as [|phrase rest IH]; intros Hkeys acc m.
  - simpl. unfold ret. rewrite app_nil_r. reflexivity.
  - simpl. destruct (contains (lower phrase) (lower heard_text)) eqn:E.
    + unfold bind at 1. rewrite getitem_key by (apply Hkeys; left; reflexivity).
      unfold bind at 1. rewrite (move_through_sequence self sv) by exact Hsv.
      unfold steps_of. simpl. fold (steps_of table).
      rewrite sequence_app. unfold bind at 1.
      destruct (sequence sv (map (pair phrase) (angles_of table phrase)) m)
        as [[u|e] m1]; [|reflexivity].
      rewrite IH by (intros p Hp; apply Hkeys; right; exact Hp).
      cbv zeta. rewrite <- app_assoc. reflexivity.
    + apply IH. intros p Hp. apply Hkeys. right. exact Hp.
Qed.

Lemma sequence_succeeds (sv : resource) (steps : list (string * Z)) :
  forall (m : machine) (w' : world),
    moves_succeed sv (map snd steps) (outside m) = Some w' ->
    sequence sv steps m
    = (Ok tt, {| outside := w';
                 trace := trace m ++ flat_map (step_events sv) steps |}).
Proof.
  induction steps as [|[phrase angle] rest IH]; intros m w' H; simpl in *.
  - injection H as <-. rewrite app_nil_r. destruct m. reflexivity.
  - unfold bind, emit, call. simpl.
    destruct (move sv angle (outside m)) as [[u|e] w]; [|discriminate].
    simpl. rewrite (IH _ w') by exact H. simpl.
    rewrite <- !app_assoc. reflexivity.
Qed.

Lemma sequence_fails (sv : resource) (done todo : list (string * Z))
    (phrase : string) (angle : Z) (e : exn) (w3 : world) :
  forall (m : machine) (w2 : world),
    moves_succeed sv (map snd done) (outside m) = Some w2 ->
    move sv angle w2 = (Raise e, w3) ->
    sequence sv (done ++ (phrase, angle) :: todo) m
    = (Raise e, {| outside := w3;
                   trace := trace m ++ flat_map (step_events sv) done
                            ++ [EMove sv angle] |}).
Proof.
  induction done as [|[p a] rest IH]; intros m w2 H Hmove; simpl in *.
  - injection H as <-. unfold bind, emit, call. simpl. rewrite Hmove. reflexivity.
  - unfold bind, emit, call. simpl.
    destruct (move sv a (outside m)) as [[u|e'] w]; [|discriminate].
    simpl. rewrite (IH _ w2) by assumption. simpl.
    rewrite <- !app_assoc. reflexivity.
Qed.

(** A plan that does not go through has a first failing move. *)
Lemma first_failure (sv : resource) (steps : list (string * Z)) :
  forall w : world,
    moves_succeed sv (map snd steps) w = None ->
    exists done phrase angle todo w2 e w3,
      steps = done ++ (phrase, angle) :: todo
      /\ moves_succeed sv (map snd done) w = Some w2
      /\ move sv angle w2 = (Raise e, w3).
Proof.
  induction steps as [|[p a] rest IH]; intros w H; simpl in H; [discriminate|].
  destruct (move sv a w) as [[u|e] w'] eqn:Hmove.
  - destruct (IH w' H)
      as [done [phrase [angle [todo [w2 [e [w3 [Hs [Hd Hm]]]]]]]]].
    exists ((p, a) :: done), phrase, angle, todo, w2, e, w3.
    rewrite Hs. simpl. rewrite Hmove. auto.
  - exists [], p, a, rest, w, e, w'. auto.
Qed.

Lemma moves_of_app (events1 events2 : list event) :
  moves_of (events1 ++ events2) = moves_of events1 ++ moves_of events2.
Proof.
  induction events1 as [|ev rest IH]; simpl; [reflexivity|].
  destruct ev; simpl; rewrite IH; reflexivity.
Qed.

Lemma moves_of_steps (sv : resource) (steps : list (string * Z)) :
  moves_of (flat_map (step_events sv) steps) = map snd steps.
Proof.
  induction steps as [|[p a] rest IH]; simpl; [reflexivity|].
  rewrite IH. reflexivity.
Qed.

Lemma steps_of_angles (table : pydict (list Z)) (matched : list string) :
  map snd (steps_of table matched) = planned_angles table matched.
Proof.
  unfold steps_of, planned_angles.
  induction matched as [|p rest IH]; simpl; [reflexivity|].
  rewrite map_app, IH, map_map. simpl. rewrite map_id. reflexivity.
Qed.

(** What a listening [do_command] does once the speech service returned a
    text: the sequencer runs on the steps of the matched phrases, and the
    outcome mapping is returned when it returns. *)
Lemma do_command_heard (self : Service) (command : pydict pyval)
    (sp sv : resource) (table : pydict (list Z)) (m : machine)
    (queue : option (list (option string))) (heard_text : string) (w1 : world) :
  truthy (mapping_get "listen_for_command" command) = true ->
  speech_service self = Some sp ->
  servo self = Some sv ->
  commands self = Some table ->
  get_commands sp 1 (outside m) = (Ok queue, w1) ->
  first_utterance queue = Some heard_text ->
  do_command self command m
  = match sequence sv (steps_of table (match_phrases heard_text table))
            {| outside := w1; trace := trace m ++ [EGetCommands sp 1] |} with
    | (Ok _, m') =>
        (Ok (Some (listen_outcome heard_text (match_phrases heard_text table))), m')
    | (Raise e, m') => (Raise e, m')
    end.
Proof.
  intros Hflag Hsp Hsv Htable Hget Hfirst.
  unfold do_command. rewrite Hflag, Hsp.
  unfold bind at 1. unfold attr, ret.
  unfold bind at 1. unfold emit.
  unfold bind at 1. unfold call. simpl outside. rewrite Hget. simpl trace.
  destruct queue as [[|[h|] rest]|]; simpl in Hfirst; try discriminate.
  destruct (String.eqb h "") eqn:Eh; [discriminate|].
  injection Hfirst as ->. rewrite Htable.
  unfold bind at 1. unfold bind at 1.
  rewrite (scan_phrases_refines self sv) by (exact Hsv || auto).
  cbv zeta. fold (match_phrases heard_text table).
  destruct (sequence sv (steps_of table (match_phrases heard_text table)) _)
    as [[u|e] m']; [|reflexivity].
  simpl app. unfold listen_outcome.
  destruct (match_phrases heard_text table) as [|p l]; reflexivity.
Qed.

(** What a listening [do_command] does when the speech service returned
    nothing to work on. *)
Lemma do_command_nothing_heard (self : Service) (command : pydict pyval)
    (sp : resource) (m : machine)
    (queue : option (list (option string))) (w1 : world) :
  truthy (mapping_get "listen_for_command" command) = true ->
  speech_service self = Some sp ->
  get_commands sp 1 (outside m) = (Ok queue, w1) ->
  first_utterance queue = None ->
  do_command self command m
  = (Ok (Some no_voice_command_heard),
     {| outside := w1; trace := trace m ++ [EGetCommands sp 1] |}).
Proof.
  intros Hflag Hsp Hget Hfirst.
  unfold do_command. rewrite Hflag, Hsp.
  unfold bind, attr, ret, emit, call. simpl. rewrite Hget.
  destruct queue as [[|[h|] rest]|]; simpl in Hfirst; try reflexivity.
  destruct (String.eqb h ""); [reflexivity|discriminate].
Qed.

(** The list that the loop returns is the list it was given followed by the
    matching phrases, whatever the servo is. *)
Lemma scan_phrases_result (self : Service) (heard_text : string)
    (table : pydict (list Z)) (keys : list string) :
  forall (commands_heard : list string) (m : machine) (l : list string),
    fst (scan_phrases self heard_text table keys commands_heard m) = Ok l ->
    l = commands_heard
        ++ filter (fun phrase => contains (lower phrase) (lower heard_text)) keys.
Proof.
  induction keys as [|phrase rest IH]; intros acc m l.
  - simpl. intros H. injection H as <-. rewrite app_nil_r. reflexivity.
  - simpl. destruct (contains (lower phrase) (lower heard_text)) eqn:E.
    + unfold bind at 1. unfold getitem.
      destruct (dict_get phrase table) as [angles|]; unfold ret, raise;
        [|discriminate].
      unfold bind at 1.
      destruct (move_through self phrase angles m) as [[u|e] m1];
        [|discriminate].
      intros H. rewrite (IH _ _ _ H), <- app_assoc. reflexivity.
    + apply IH.
Qed.

(** The mapping that a [do_command] returns, when it returns one. *)
Lemma do_command_returns (self : Service) (command : pydict pyval)
    (m m' : machine) (out : pydict pyval) :
  do_command self command m = (Ok (Some out), m') ->
  out = no_voice_command_heard
  \/ exists heard_text table,
       commands self = Some table
       /\ heard_text <> ""
       /\ out = listen_outcome heard_text (match_phrases heard_text table).
Proof.
  unfold do_command.
  destruct (truthy (mapping_get "listen_for_command" command));
    [|discriminate].
  destruct (speech_service self) as [sp|]; [|discriminate].
  unfold bind at 1. unfold attr, ret. unfold bind at 1. unfold emit.
  unfold bind at 1. unfold call. simpl outside. simpl trace.
  destruct (get_commands sp 1 (outside m)) as [[queue|e] w1]; [|discriminate].
  assert (Hnone : forall m0 : machine,
             (Ok (Some no_voice_command_heard), m0) = (Ok (Some out), m') ->
             out = no_voice_command_heard
             \/ exists heard_text table,
                  commands self = Some table
                  /\ heard_text <> ""
                  /\ out = listen_outcome heard_text
                             (match_phrases heard_text table)).
  { intros m0 H. injection H as <- _. left. reflexivity. }
  destruct queue as [[|[h|] rest]|]; try apply Hnone.
  destruct (String.eqb_spec h "") as [->|Hne]; [apply Hnone|].
  destruct (commands self) as [table|]; [|discriminate].
  unfold bind at 1. unfold attr, ret. unfold bind at 1.
  destruct (scan_phrases self h table (dict_keys table) [] _)
    as [[l|e] m2] eqn:Es; [|discriminate].
  assert (Hl : l = match_phrases h table).
  { apply (scan_phrases_result self h table (dict_keys table) []
             {| outside := w1; trace := trace m ++ [EGetCommands sp 1] |} l).
    rewrite Es. reflexivity. }
  intros H. right. exists h, table. split; [reflexivity|]. split; [exact Hne|].
  rewrite <- Hl. destruct l as [|p l']; simpl in H; injection H as <- _;
    reflexivity.
Qed.

End DispatchFacts.

(** ** Substrings *)

Lemma prefix_spec (needle hay : string) :
  String.prefix needle hay = true <-> exists post, hay = (needle ++ post)%string.
Proof.
  revert hay. induction needle as [|c needle IH]; intros hay.
  - split; [intros _; exists hay; reflexivity|intros _; apply prefix_empty].
  - destruct hay as [|c' hay]; simpl.
    + split; [discriminate|intros [post H]; discriminate].
    + destruct (Ascii.ascii_dec c c') as [->|Hne].
      * rewrite (IH hay). split; intros [post H]; exists post.
        -- rewrite H. reflexivity.
        -- injection H as H. exact H.
      * split; [discriminate|].
        intros [post H]. injection H as H _. congruence.
Qed.

(** [contains] is the substring test: the needle occurs in the text between
    some prefix and some suffix. *)
Lemma contains_spec (needle hay : string) :
  contains needle hay = true
  <-> exists pre post, hay = (pre ++ needle ++ post)%string.
Proof.
  induction hay as [|c hay IH].
  - change (contains needle "") with (String.prefix needle "" || false)%bool.
    rewrite orb_false_r, prefix_spec. split.
    + intros [post H]. exists "", post. exact H.
    + intros [pre [post H]]. destruct pre; [|discriminate].
      exists post. exact H.
  - change (contains needle (String c hay))
      with (String.prefix needle (String c hay) || contains needle hay)%bool.
    rewrite orb_true_iff, prefix_spec, IH. split.
    + intros [[post H]|[pre [post H]]].
      * exists "", post. exact H.
      * exists (String c pre), post. simpl. rewrite H. reflexivity.
    + intros [pre [post H]]. destruct pre as [|c' pre].
      * left. exists post. exact H.
      * right. simpl in H. injection H as _ H. exists pre, post. exact H.
Qed.

Lemma match_phrases_spec {L : StrLower}
    (heard_text : string) (table : pydict (list Z))
    (phrase : string) :
  In phrase (match_phrases heard_text table)
  <-> In phrase (dict_keys table)
      /\ exists pre post,
           lower heard_text = (pre ++ lower phrase ++ post)%string.
Proof.
  unfold match_phrases. rewrite filter_In, contains_spec. reflexivity.
Qed.

(** ** The claims on a dispatch *)

(** C2: the matched phrases that a dispatch outputs are exactly the phrases
    of the table whose lower-cased form is a substring of the lower-cased
    heard text, in the order of the table, each at most once; whether a
    phrase matches depends on that phrase and the text alone, so overlapping
    phrases all match. *)
Theorem matched_phrases_output {L : StrLower}
    {C : Collaborators} (self : Service)
    (command : pydict pyval) (sp sv : resource) (table : pydict (list Z))
    (m : machine) (queue : option (list (option string)))
    (heard_text : string) (w1 w' : world) :
  truthy (mapping_get "listen_for_command" command) = true ->
  speech_service self = Some sp ->
  servo self = Some sv ->
  commands self = Some table ->
  dict_wf table ->
  get_commands sp 1 (outside m) = (Ok queue, w1) ->
  first_utterance queue = Some heard_text ->
  moves_succeed sv (planned_angles table (match_phrases heard_text table)) w1
  = Some w' ->
  exists matched m',
    scan_phrases self heard_text table (dict_keys table) []
      {| outside := w1; trace := trace m ++ [EGetCommands sp 1] |}
    = (Ok matched, m')
    /\ do_command self command m
       = (Ok (Some (listen_outcome heard_text matched)), m')
    /\ matched
       = filter (fun phrase => contains (lower phrase) (lower heard_text))
                (dict_keys table)
    /\ (forall phrase,
          In phrase matched
          <-> In phrase (dict_keys table)
              /\ exists pre post,
                   lower heard_text = (pre ++ lower phrase ++ post)%string)
    /\ NoDup matched
    /\ (matched <> [] ->
        dict_get "voice_commands" (listen_outcome heard_text matched)
        = Some (PList (map PStr matched))).
Proof.
  intros Hflag Hsp Hsv Htable Hwf Hget Hfirst Hmoves.
  set (m1 := {| outside := w1; trace := trace m ++ [EGetCommands sp 1] |}).
  assert (Hseq : sequence sv (steps_of table (match_phrases heard_text table)) m1
                 = (Ok tt, {| outside := w';
                              trace := trace m1
                                       ++ flat_map (step_events sv)
                                            (steps_of table
                                               (match_phrases heard_text table)) |})).
  { apply sequence_succeeds. rewrite steps_of_angles. exact Hmoves. }
  eexists (match_phrases heard_text table), _. split; [|split].
  - rewrite (scan_phrases_refines self sv) by (exact Hsv || auto).
    cbv zeta. fold (match_phrases heard_text table). rewrite Hseq. reflexivity.
  - rewrite (do_command_heard self command sp sv table m queue heard_text w1)
      by assumption.
    fold m1. rewrite Hseq. reflexivity.
  - split; [reflexivity|]. split; [apply match_phrases_spec|]. split.
    + apply NoDup_filter. exact Hwf.
    + intros Hne. unfold listen_outcome.
      destruct (match_phrases heard_text table); [congruence|reflexivity].
Qed.

(** C3: when no move fails, the servo receives exactly the concatenation of
    the matched phrases' angle sequences (phrase after phrase, each
    phrase's angles in order, nothing removed), and every move command is
    followed by a sleep of one time unit before the next. *)
Theorem moves_are_concatenated_sequences {L : StrLower}
    {C : Collaborators} (self : Service)
    (command : pydict pyval) (sp sv : resource) (table : pydict (list Z))
    (m : machine) (queue : option (list (option string)))
    (heard_text : string) (w1 w' : world) :
  truthy (mapping_get "listen_for_command" command) = true ->
  speech_service self = Some sp ->
  servo self = Some sv ->
  commands self = Some table ->
  get_commands sp 1 (outside m) = (Ok queue, w1) ->
  first_utterance queue = Some heard_text ->
  moves_succeed sv (planned_angles table (match_phrases heard_text table)) w1
  = Some w' ->
  exists out m',
    do_command self command m = (Ok out, m')
    /\ outside m' = w'
    /\ trace m'
       = trace m ++ [EGetCommands sp 1]
         ++ flat_map (fun step => [EMove sv (snd step); ESleep 1;
                                   ELogDebug (snd step) (fst step)])
              (steps_of table (match_phrases heard_text table))
    /\ moves_of (trace m')
       = moves_of (trace m)
         ++ flat_map (angles_of table) (match_phrases heard_text table).
Proof.
  intros Hflag Hsp Hsv Htable Hget Hfirst Hmoves.
  rewrite (do_command_heard self command sp sv table m queue heard_text w1)
    by assumption.
  rewrite (sequence_succeeds sv _ _ w')
    by (rewrite steps_of_angles; exact Hmoves).
  eexists _, _. split; [reflexivity|]. simpl.
  split; [reflexivity|]. split.
  - rewrite <- app_assoc. reflexivity.
  - rewrite !moves_of_app, moves_of_steps, steps_of_angles. simpl.
    rewrite app_nil_r. reflexivity.
Qed.

(** C4: when some move of a dispatch fails, there is a first failing move:
    the moves before it were made and stay made, the failing move is the
    last command the servo receives (none of the later ones is issued),
    and the servo's exception comes out of [do_command]. *)
Theorem first_failing_move_aborts {L : StrLower}
    {C : Collaborators} (self : Service)
    (command : pydict pyval) (sp sv : resource) (table : pydict (list Z))
    (m : machine) (queue : option (list (option string)))
    (heard_text : string) (w1 : world) :
  truthy (mapping_get "listen_for_command" command) = true ->
  speech_service self = Some sp ->
  servo self = Some sv ->
  commands self = Some table ->
  get_commands sp 1 (outside m) = (Ok queue, w1) ->
  first_utterance queue = Some heard_text ->
  moves_succeed sv (planned_angles table (match_phrases heard_text table)) w1
  = None ->
  exists done phrase angle todo w2 e w3 m',
    steps_of table (match_phrases heard_text table)
    = done ++ (phrase, angle) :: todo
    /\ moves_succeed sv (map snd done) w1 = Some w2
    /\ move sv angle w2 = (Raise e, w3)
    /\ do_command self command m = (Raise e, m')
    /\ outside m' = w3
    /\ trace m'
       = trace m ++ [EGetCommands sp 1]
         ++ flat_map (step_events sv) done ++ [EMove sv angle]
    /\ moves_of (trace m')
       = moves_of (trace m) ++ map snd done ++ [angle].
Proof.
  intros Hflag Hsp Hsv Htable Hget Hfirst Hfail.
  rewrite <- steps_of_angles in Hfail.
  destruct (first_failure sv _ _ Hfail)
    as [done [phrase [angle [todo [w2 [e [w3 [Hsteps [Hdone Hmove]]]]]]]]].
  exists done, phrase, angle, todo, w2, e, w3.
  rewrite (do_command_heard self command sp sv table m queue heard_text w1)
    by assumption.
  rewrite Hsteps.
  rewrite (sequence_fails sv done todo phrase angle e w3 _ w2)
    by assumption.
  eexists. split; [reflexivity|]. split; [exact Hdone|].
  split; [exact Hmove|]. split; [reflexivity|]. simpl.
  split; [reflexivity|]. split.
  - rewrite <- app_assoc. reflexivity.
  - rewrite !moves_of_app, moves_of_steps. simpl. rewrite <- app_assoc.
    reflexivity.
Qed.

(** C5 (as amended): a dispatch that returns gives a mapping whose status
    is one of the three strings ["no voice command heard"] (the
    specification's [no_command_heard]), ["voice commands heard"]
    ([commands_heard]) and ["no voice commands heard"]
    ([no_commands_matched]). With matches it carries the matched phrases
    under [voice_commands] and the heard text under [heard]; without
    matches it carries the heard text under [heard] and has no
    [voice_commands] entry. The first part holds of every mapping a
    dispatch returns, whatever the state of the service and of its
    collaborators; the second says that a dispatch on a bound service all
    of whose moves succeed does return, and which mapping. *)
Theorem dispatch_outcome_record {L : StrLower}
    {C : Collaborators} (self : Service)
    (command : pydict pyval) (m : machine) :
  truthy (mapping_get "listen_for_command" command) = true ->
  (forall out m',
      do_command self command m = (Ok (Some out), m') ->
      out = [("status", PStr "no voice command heard")]
      \/ exists heard_text table,
           commands self = Some table
           /\ heard_text <> ""
           /\ match match_phrases heard_text table with
              | [] =>
                  out = [("status", PStr "no voice commands heard");
                         ("heard", PStr heard_text)]
                  /\ dict_get "voice_commands" out = None
              | phrase :: others =>
                  out = [("status", PStr "voice commands heard");
                         ("voice_commands",
                          PList (map PStr (phrase :: others)));
                         ("heard", PStr heard_text)]
              end)
  /\ (forall (sp sv : resource) (table : pydict (list Z))
             (queue : option (list (option string))) (w1 : world),
        speech_service self = Some sp ->
        servo self = Some sv ->
        commands self = Some table ->
        get_commands sp 1 (outside m) = (Ok queue, w1) ->
        (forall heard_text,
            first_utterance queue = Some heard_text ->
            exists w',
              moves_succeed sv
                (planned_angles table (match_phrases heard_text table)) w1
              = Some w') ->
        exists out m',
          do_command self command m = (Ok (Some out), m')
          /\ match first_utterance queue with
             | None => out = [("status", PStr "no voice command heard")]
             | Some heard_text =>
                 match match_phrases heard_text table with
                 | [] =>
                     out = [("status", PStr "no voice commands heard");
                            ("heard", PStr heard_text)]
                     /\ dict_get "voice_commands" out = None
                 | phrase :: others =>
                     out = [("status", PStr "voice commands heard");
                            ("voice_commands",
                             PList (map PStr (phrase :: others)));
                            ("heard", PStr heard_text)]
                 end
             end).
Proof.
  intros Hflag. split.
  - intros out m' H.
    destruct (do_command_returns self command m m' out H)
      as [->|[heard_text [table [Ht [Hne ->]]]]]; [left; reflexivity|].
    right. exists heard_text, table. split; [exact Ht|]. split; [exact Hne|].
    unfold listen_outcome.
    destruct (match_phrases heard_text table); [split|]; reflexivity.
  - intros sp sv table queue w1 Hsp Hsv Htable Hget Hmoves.
    destruct (first_utterance queue) as [heard_text|] eqn:Hfirst.
    + destruct (Hmoves heard_text eq_refl) as [w' Hw'].
      rewrite (do_command_heard self command sp sv table m queue heard_text w1)
        by assumption.
      rewrite (sequence_succeeds sv _ _ w')
        by (rewrite steps_of_angles; exact Hw').
      eexists _, _. split; [reflexivity|].
      unfold listen_outcome.
      destruct (match_phrases heard_text table); [split|]; reflexivity.
    + rewrite (do_command_nothing_heard self command sp m queue w1)
        by assumption.
      eexists _, _. split; reflexivity.
Qed.

(** C6: when the speech service returns no sequence, an empty sequence, or
    a first utterance that is null or empty, the dispatch returns the
    status ["no voice command heard"] right after the speech call: no
    phrase is matched and no move command is issued. *)
Theorem nothing_heard_returns_at_once {L : StrLower}
    {C : Collaborators} (self : Service)
    (command : pydict pyval) (sp : resource) (m : machine)
    (queue : option (list (option string))) (w1 : world) :
  truthy (mapping_get "listen_for_command" command) = true ->
  speech_service self = Some sp ->
  get_commands sp 1 (outside m) = (Ok queue, w1) ->
  (queue = None \/ queue = Some []
   \/ exists rest, queue = Some (None :: rest) \/ queue = Some (Some "" :: rest)) ->
  do_command self command m
  = (Ok (Some [("status", PStr "no voice command heard")]),
     {| outside := w1; trace := trace m ++ [EGetCommands sp 1] |})
  /\ moves_of (trace m ++ [EGetCommands sp 1]) = moves_of (trace m).
Proof.
  intros Hflag Hsp Hget Hqueue. split.
  - apply (do_command_nothing_heard self command sp m queue w1);
      try assumption.
    destruct Hqueue as [->|[->|[rest [->| ->]]]]; reflexivity.
  - rewrite moves_of_app. simpl. apply app_nil_r.
Qed.

(** C10: when the request has no [listen_for_command] entry, or a falsy
    one, [do_command] calls no collaborator and returns no mapping: it
    falls off its end and yields [None]. *)
Theorem not_listening_returns_none {L : StrLower}
    {C : Collaborators} (self : Service)
    (command : pydict pyval) (m : machine) :
  (dict_get "listen_for_command" command = None
   \/ exists flag, dict_get "listen_for_command" command = Some flag
                   /\ truthy flag = false) ->
  do_command self command m = (Ok None, m).
Proof.
  intros H. unfold do_command, mapping_get.
  destruct H as [->|[flag [-> Hflag]]]; [|rewrite Hflag]; reflexivity.
Qed.

(** ** The claims on the concrete robot *)

Lemma matched_phrases_output_witness :
  exists matched m',
    scan_phrases (L := ascii_text) service_wave_bow "Please WAVE and bow now"
      table_wave_bow (dict_keys table_wave_bow) []
      (@Build_machine demo
         {| buffer := []; reached := []; jammed := [] |}
         [@EGetCommands demo "mic" 1])
    = (Ok matched, m')
    /\ do_command (L := ascii_text) service_wave_bow listen
         (demo_machine [Some "Please WAVE and bow now"] [])
       = (Ok (Some (listen_outcome "Please WAVE and bow now" matched)), m')
    /\ matched = ["Wave"; "BOW"].
Proof.
  destruct (matched_phrases_output (L := ascii_text) (C := demo)
              service_wave_bow listen "mic" "arm" table_wave_bow
              (demo_machine [Some "Please WAVE and bow now"] [])
              (Some [Some "Please WAVE and bow now"]) "Please WAVE and bow now"
              {| buffer := []; reached := []; jammed := [] |}
              {| buffer := []; reached := [10; 20; 30]; jammed := [] |}
              eq_refl eq_refl eq_refl eq_refl)
    as [matched [m' [Hscan [Hdo [Hm _]]]]].
  - unfold dict_wf. simpl. repeat constructor; simpl; intuition discriminate.
  - reflexivity.
  - reflexivity.
  - reflexivity.
  - exists matched, m'. split; [exact Hscan|]. split; [exact Hdo|].
    rewrite Hm. reflexivity.
Defined.

Lemma moves_are_concatenated_sequences_witness :
  exists out m',
    do_command (L := ascii_text) service_a_b listen
      (demo_machine [Some "please do a and b now"] [])
    = (Ok out, m')
    /\ moves_of (trace m') = [10; 20; 30]
    /\ reached (outside m') = [10; 20; 30].
Proof.
  destruct (moves_are_concatenated_sequences (L := ascii_text) (C := demo)
              service_a_b listen
              "mic" "arm" table_a_b
              (demo_machine [Some "please do a and b now"] [])
              (Some [Some "please do a and b now"]) "please do a and b now"
              {| buffer := []; reached := []; jammed := [] |}
              {| buffer := []; reached := [10; 20; 30]; jammed := [] |}
              eq_refl eq_refl eq_refl eq_refl eq_refl eq_refl eq_refl)
    as [out [m' [Hdo [Hw [_ Hmoves]]]]].
  exists out, m'. split; [exact Hdo|]. split; [exact Hmoves|].
  rewrite Hw. reflexivity.
Defined.

Lemma first_failing_move_aborts_witness :
  exists done phrase angle todo w2 e w3 m',
    steps_of table_a_b (match_phrases (L := ascii_text)
        "please do a and b now" table_a_b)
    = done ++ (phrase, angle) :: todo
    /\ moves_succeed (C := demo) "arm" (map snd done)
         {| buffer := []; reached := []; jammed := [20] |} = Some w2
    /\ move (Collaborators := demo) "arm" angle w2 = (Raise e, w3)
    /\ do_command (L := ascii_text) service_a_b listen
         (demo_machine [Some "please do a and b now"] [20])
       = (Raise e, m')
    /\ outside m' = w3
    /\ trace m'
       = trace (demo_machine [Some "please do a and b now"] [20])
         ++ [@EGetCommands demo "mic" 1]
         ++ flat_map (step_events (C := demo) "arm") done
         ++ [@EMove demo "arm" angle]
    /\ moves_of (trace m')
       = moves_of (trace (demo_machine [Some "please do a and b now"] [20]))
         ++ map snd done ++ [angle].
Proof.
  apply (first_failing_move_aborts (L := ascii_text) (C := demo)
              service_a_b listen
           "mic" "arm" table_a_b
           (demo_machine [Some "please do a and b now"] [20])
           (Some [Some "please do a and b now"]) "please do a and b now"
           {| buffer := []; reached := []; jammed := [20] |}
           eq_refl eq_refl eq_refl eq_refl eq_refl eq_refl eq_refl).
Defined.

(** The second of the three moves fails: the servo receives 10 and 20, never
    30, and stays where the first move left it. *)
Example second_move_fails_third_not_issued :
  do_command (L := ascii_text) service_a_b listen
    (demo_machine [Some "please do a and b now"] [20])
  = (Raise (CollaboratorError "servo jammed"),
     @Build_machine demo
       {| buffer := []; reached := [10]; jammed := [20] |}
       [@EGetCommands demo "mic" 1;
        @EMove demo "arm" 10; @ESleep demo 1; @ELogDebug demo 10 "a";
        @EMove demo "arm" 20]).
Proof. reflexivity. Qed.

Lemma dispatch_outcome_record_witness :
  exists m',
    do_command (L := ascii_text) service_a_b listen
      (demo_machine [Some "Hello"] [])
    = (Ok (Some [("status", PStr "no voice commands heard");
                 ("heard", PStr "Hello")]), m').
Proof.
  destruct (dispatch_outcome_record (L := ascii_text) (C := demo) service_a_b
              listen (demo_machine [Some "Hello"] []) eq_refl)
    as [_ Hreturns].
  destruct (Hreturns "mic" "arm" table_a_b (Some [Some "Hello"])
              {| buffer := []; reached := []; jammed := [] |}
              eq_refl eq_refl eq_refl eq_refl)
    as [out [m' [Hdo Hout]]].
  - intros heard_text H. injection H as <-. eexists. reflexivity.
  - simpl in Hout. destruct Hout as [-> _]. exists m'. exact Hdo.
Defined.

Lemma nothing_heard_returns_at_once_witness :
  do_command (L := ascii_text) service_a_b listen (demo_machine [] [])
  = (Ok (Some [("status", PStr "no voice command heard")]),
     @Build_machine demo {| buffer := []; reached := []; jammed := [] |}
       [@EGetCommands demo "mic" 1]).
Proof.
  apply (nothing_heard_returns_at_once (L := ascii_text) (C := demo)
              service_a_b listen "mic"
           (demo_machine [] []) (Some [])
           {| buffer := []; reached := []; jammed := [] |}
           eq_refl eq_refl eq_refl).
  right. left. reflexivity.
Defined.

Lemma not_listening_returns_none_witness :
  do_command (L := ascii_text) service_a_b [("listen_for_command", PBool false)]
    (demo_machine [Some "please do a and b now"] [])
  = (Ok None, demo_machine [Some "please do a and b now"] []).
Proof.
  apply (not_listening_returns_none (L := ascii_text) (C := demo)).
  right. exists (PBool false). split; reflexivity.
Defined.

(** C5 (as the specification states it) fails: the dispatch that hears
    ["hello"] against the table [{"a": [10], "b": [20, 30]}] matches
    nothing, and the mapping it returns has no list of matched phrases. *)
Lemma outcome_in_spec_fails :
  ~ (forall out m',
        do_command (L := ascii_text)
            service_a_b listen (demo_machine [Some "hello"] [])
        = (Ok (Some out), m') ->
        outcome_in_spec "hello" (match_phrases (L := ascii_text)
            "hello" table_a_b) out).
Proof.
  intros H. specialize (H _ _ eq_refl). destruct H as [_ [H _]].
  vm_compute in H. discriminate.
Qed.

(** Matching is case-insensitive, and overlapping phrases all match. *)
Example match_is_case_insensitive :
  match_phrases (L := ascii_text)
      "turn the light ON please" [("light on", [90])] = ["light on"].
Proof. reflexivity. Qed.

Example overlapping_phrases_all_match :
  match_phrases (L := ascii_text)
      "Light on" [("light", [0]); ("light on", [90])]
  = ["light"; "light on"].
Proof. reflexivity. Qed.

(** Two matched phrases with the same angle sequence: the sequence is
    played once for each. *)
Example same_sequence_is_replayed :
  exists out m',
    do_command (L := ascii_text)
      (demo_service (Some "mic") (Some "arm")
         (Some [("a", [10; 20]); ("b", [10; 20])]))
      listen (demo_machine [Some "a b"] [])
    = (Ok out, m')
    /\ moves_of (trace m') = [10; 20; 10; 20].
Proof. eexists _, _. split; [vm_compute; reflexivity|reflexivity]. Qed.

(** * Further properties of the code *)

(** ** Which error validation reports *)

Lemma check_angles_first_bad (phrase : string) (ok more : list Value)
    (angle_value : Value) :
  Forall (fun a => in_range (number_value a) = true) ok ->
  in_range (number_value angle_value) = false ->
  check_angles phrase (ok ++ angle_value :: more)
  = Raise (ValueError ("command angles for '" ++ phrase
                       ++ "' must be integers between 0 and 180")%string).
Proof.
  induction 1 as [|a l Ha _ IH]; intros Hbad; simpl.
  - rewrite Hbad. reflexivity.
  - rewrite Ha. simpl. apply IH, Hbad.
Qed.

Lemma check_commands_skips_accepted (good rest : list (string * Value)) :
  Forall entry_accepted good ->
  check_commands (good ++ rest) = check_commands rest.
Proof.
  induction 1 as [|[phrase v] l [Hne Hall] _ IH]; [reflexivity|].
  simpl in Hne, Hall |- *.
  destruct (list_value_values v) as [|a vs] eqn:E; [congruence|].
  rewrite (check_angles_ok phrase (a :: vs) Hall). exact IH.
Qed.

Lemma validate_config_with_keys (config : ComponentConfig) :
  has_required_keys config ->
  validate_config config
  = match check_commands (commands_of config) with
    | Raise e => Raise e
    | Ok _ => Ok ([speech_service_name_of config; servo_name_of config], [])
    end.
Proof.
  intros [H1 [H2 H3]]. unfold validate_config. rewrite H1, H2, H3. reflexivity.
Qed.

(** Validation stops at the first phrase, in the order of the
    configuration, that it does not accept; when that phrase has no angle
    the error names the phrase and says its angles cannot be empty. *)
Theorem validate_reports_first_empty_phrase (config : ComponentConfig)
    (good rest : list (string * Value)) (phrase : string) (angles_value : Value) :
  has_required_keys config ->
  commands_of config = good ++ (phrase, angles_value) :: rest ->
  Forall entry_accepted good ->
  list_value_values angles_value = [] ->
  validate_config config
  = Raise (ValueError ("command angles for '" ++ phrase
                       ++ "' cannot be empty")%string).
Proof.
  intros Hkeys Hsplit Hgood Hempty.
  rewrite (validate_config_with_keys config Hkeys), Hsplit.
  rewrite (check_commands_skips_accepted good _ Hgood).
  simpl. rewrite Hempty. reflexivity.
Qed.

Lemma validate_reports_first_empty_phrase_witness :
  validate_config
    (make_config "mic" "arm"
       [("wave", [Finite 90]); ("nod", []); ("bow", [Finite 700])])
  = Raise (ValueError "command angles for 'nod' cannot be empty").
Proof.
  apply (validate_reports_first_empty_phrase
           (make_config "mic" "arm"
              [("wave", [Finite 90]); ("nod", []); ("bow", [Finite 700])])
           [("wave", list_kind [number_kind (Finite 90)])]
           [("bow", list_kind [number_kind (Finite 700)])]
           "nod" (list_kind [])).
  - repeat split.
  - reflexivity.
  - constructor; [|constructor]. split; [discriminate|].
    constructor; [reflexivity|constructor].
  - reflexivity.
Defined.

(** When the first phrase that validation does not accept has angles, the
    error names that phrase and says its angles must lie between 0 and 180;
    the phrases and angles after the first offending angle are not looked
    at. *)
Theorem validate_reports_first_out_of_range (config : ComponentConfig)
    (good rest : list (string * Value)) (phrase : string) (angles_value : Value)
    (ok more : list Value) (angle_value : Value) :
  has_required_keys config ->
  commands_of config = good ++ (phrase, angles_value) :: rest ->
  Forall entry_accepted good ->
  list_value_values angles_value = ok ++ angle_value :: more ->
  Forall (fun a => in_range (number_value a) = true) ok ->
  in_range (number_value angle_value) = false ->
  validate_config config
  = Raise (ValueError ("command angles for '" ++ phrase
                       ++ "' must be integers between 0 and 180")%string).
Proof.
  intros Hkeys Hsplit Hgood Hvalues Hok Hbad.
  rewrite (validate_config_with_keys config Hkeys), Hsplit.
  rewrite (check_commands_skips_accepted good _ Hgood).
  simpl. rewrite Hvalues.
  rewrite (check_angles_first_bad phrase ok more angle_value Hok Hbad).
  destruct (ok ++ angle_value :: more) eqn:E; [|reflexivity].
  destruct ok; discriminate.
Qed.

Lemma validate_reports_first_out_of_range_witness :
  validate_config
    (make_config "mic" "arm"
       [("wave", [Finite 90]); ("bow", [Finite 10; Finite 181; NaN]); ("nod", [])])
  = Raise (ValueError "command angles for 'bow' must be integers between 0 and 180").
Proof.
  apply (validate_reports_first_out_of_range
           (make_config "mic" "arm"
              [("wave", [Finite 90]); ("bow", [Finite 10; Finite 181; NaN]);
               ("nod", [])])
           [("wave", list_kind [number_kind (Finite 90)])]
           [("nod", list_kind [])]
           "bow"
           (list_kind [number_kind (Finite 10); number_kind (Finite 181);
                       number_kind NaN])
           [number_kind (Finite 10)] [number_kind NaN]
           (number_kind (Finite 181))).
  - repeat split.
  - reflexivity.
  - constructor; [|constructor]. split; [discriminate|].
    constructor; [reflexivity|constructor].
  - reflexivity.
  - constructor; [reflexivity|constructor].
  - reflexivity.
Defined.

(** A [commands] attribute that is not a struct reads as a mapping without
    entries: validation accepts the configuration, and [reconfigure] leaves
    the service with an empty table. *)
Theorem non_struct_commands_accepted {C : Collaborators} (self : Service)
    (config : ComponentConfig) (dependencies : list (ResourceName * resource)) :
  has_required_keys config ->
  (forall fields,
      fields_get "commands" (attributes_fields config) <> struct_kind fields) ->
  validate_config config
  = Ok ([speech_service_name_of config; servo_name_of config], [])
  /\ fst (reconfigure self config dependencies) = Ok tt
  /\ commands (snd (reconfigure self config dependencies)) = Some [].
Proof.
  intros Hkeys Hkind.
  assert (Hnone : commands_of config = []).
  { unfold commands_of.
    destruct (fields_get "commands" (attributes_fields config)) as [| | | |fs|];
      try reflexivity.
    exfalso. apply (Hkind fs). reflexivity. }
  split.
  - rewrite (validate_config_with_keys config Hkeys), Hnone. reflexivity.
  - unfold reconfigure. fold (commands_of config). rewrite Hnone. simpl. auto.
Qed.

Lemma non_struct_commands_accepted_witness :
  validate_config
    {| attributes_fields :=
         [("speech_service", string_kind "mic"); ("servo", string_kind "arm");
          ("commands", string_kind "wave")] |}
  = Ok (["mic"; "arm"], [])
  /\ fst (reconfigure (C := demo) fresh_instance
            {| attributes_fields :=
                 [("speech_service", string_kind "mic");
                  ("servo", string_kind "arm");
                  ("commands", string_kind "wave")] |} [])
     = Ok tt
  /\ commands (snd (reconfigure (C := demo) fresh_instance
                      {| attributes_fields :=
                           [("speech_service", string_kind "mic");
                            ("servo", string_kind "arm");
                            ("commands", string_kind "wave")] |} []))
     = Some [].
Proof.
  apply (non_struct_commands_accepted (C := demo) fresh_instance
           {| attributes_fields :=
                [("speech_service", string_kind "mic");
                 ("servo", string_kind "arm");
                 ("commands", string_kind "wave")] |} []).
  - repeat split.
  - intros fields. discriminate.
Defined.

(** ** The table of a validated configuration *)

Lemma stored_as_bounds (angle_value : Value) (n : Z) :
  stored_as angle_value n -> 0 <= n <= 180.
Proof.
  intros [q [_ [H0 [H180 [Hlo Hhi]]]]]. destruct q as [a b].
  unfold Qle, Qlt, Qplus, inject_Z in *. simpl in *. nia.
Qed.

Lemma Forall2_stored_bounds (values : list Value) (angles : list Z) :
  Forall2 stored_as values angles ->
  Forall (fun n => 0 <= n <= 180) angles.
Proof.
  induction 1 as [|a n l l' Hs _ IH]; constructor;
    [apply (stored_as_bounds a n Hs)|exact IH].
Qed.

(** Every phrase of the table that [reconfigure] builds from a validated
    configuration has at least one angle, and every stored angle is an
    integer of [0, 180]. *)
Theorem validated_table_angles_in_range {C : Collaborators} (self : Service)
    (config : ComponentConfig) (dependencies : list (ResourceName * resource))
    (names : list string * list string) :
  validate_config config = Ok names ->
  exists self' table,
    reconfigure self config dependencies = (Ok tt, self')
    /\ commands self' = Some table
    /\ forall phrase angles,
         In (phrase, angles) table ->
         angles <> [] /\ Forall (fun n => 0 <= n <= 180) angles.
Proof.
  intros Hv.
  destruct (reconfigure_validated self config dependencies names Hv)
    as [self' [table [Hr [Hc [_ [_ He]]]]]].
  exists self', table. split; [exact Hr|]. split; [exact Hc|].
  intros phrase angles Hin. destruct (He phrase angles Hin) as [v [Hv' Hs]].
  split; [|apply (Forall2_stored_bounds _ _ Hs)].
  pose proof (validate_ok_entries config names Hv) as Hall.
  rewrite Forall_forall in Hall. destruct (Hall _ Hv') as [Hne _].
  simpl in Hne. intros ->. inversion Hs as [Hnil|]; subst. congruence.
Qed.

Lemma validated_table_angles_in_range_witness :
  exists self' table,
    reconfigure (C := demo) fresh_instance config_90_7 [] = (Ok tt, self')
    /\ commands self' = Some table
    /\ forall phrase angles,
         In (phrase, angles) table ->
         angles <> [] /\ Forall (fun n => 0 <= n <= 180) angles.
Proof.
  apply (validated_table_angles_in_range (C := demo) fresh_instance
           config_90_7 [] (["mic"; "arm"], [])).
  reflexivity.
Defined.

(** ** The table follows the configuration *)

Lemma dict_set_fresh {V : Type} (k : string) (v : V) (d : pydict V) :
  ~ In k (dict_keys d) -> dict_set k v d = d ++ [(k, v)].
Proof.
  induction d as [|[k' v'] rest IH]; simpl; intros H; [reflexivity|].
  destruct (String.eqb_spec k k') as [->|Hne]; [tauto|].
  rewrite IH by tauto. reflexivity.
Qed.

Lemma NoDup_keys_same_value {V : Type} (k : string) (v v' : V)
    (items : list (string * V)) :
  NoDup (map fst items) -> In (k, v) items -> In (k, v') items -> v = v'.
Proof.
  induction items as [|[k0 v0] rest IH]; simpl; intros Hnd H1 H2; [contradiction|].
  inversion Hnd as [|? ? Hnin Hnd']; subst.
  destruct H1 as [H1|H1], H2 as [H2|H2].
  - congruence.
  - injection H1 as -> ->. exfalso. apply Hnin.
    apply (in_map fst) in H2. exact H2.
  - injection H2 as -> ->. exfalso. apply Hnin.
    apply (in_map fst) in H1. exact H1.
  - apply IH; assumption.
Qed.

Lemma in_range_is_finite (x : number) : in_range x = true -> finite x = true.
Proof. destruct x; simpl; congruence. Qed.

Lemma entry_accepted_finite (entry : string * Value) :
  entry_accepted entry -> entry_finite entry.
Proof.
  intros [_ H]. unfold entry_finite. eapply Forall_impl; [|exact H].
  intros a. apply in_range_is_finite.
Qed.

Lemma parse_angles_finite (values : list Value) :
  Forall (fun a => finite (number_value a) = true) values ->
  forall angles, exists stored, parse_angles values angles = Ok (angles ++ stored).
Proof.
  induction 1 as [|a l Ha _ IH]; intros angles; simpl.
  - exists []. rewrite app_nil_r. reflexivity.
  - destruct (number_value a) as [q| | |]; try discriminate. simpl.
    destruct (IH (angles ++ [Z.quot (Qnum q) (Z.pos (Qden q))])) as [stored Hs].
    exists (Z.quot (Qnum q) (Z.pos (Qden q)) :: stored).
    rewrite Hs, <- app_assoc. reflexivity.
Qed.

Lemma parse_angles_raise (values : list Value) :
  Exists (fun a => finite (number_value a) = false) values ->
  forall angles, exists e, parse_angles values angles = Raise e.
Proof.
  induction values as [|a l IH]; intros H angles; [inversion H|].
  simpl. destruct (number_value a) as [q| | |] eqn:E; simpl;
    try (eexists; reflexivity).
  apply IH. inversion H as [? ? Hb|? ? Hb]; subst; [|exact Hb].
  rewrite E in Hb. discriminate.
Qed.

Lemma parse_commands_app (items1 items2 : list (string * Value)) :
  forall table0 : pydict (list Z),
    parse_commands (items1 ++ items2) table0
    = match parse_commands items1 table0 with
      | (Ok _, table1) => parse_commands items2 table1
      | (Raise e, table1) => (Raise e, table1)
      end.
Proof.
  induction items1 as [|[phrase v] rest IH]; intros table0; simpl.
  - reflexivity.
  - destruct (parse_angles (list_value_values v) []) as [angles|e];
      [apply IH|reflexivity].
Qed.

(** On entries whose angles are all finite the table loop succeeds and adds
    exactly their phrases. *)
Lemma parse_commands_finite (items : list (string * Value)) :
  Forall entry_finite items ->
  forall table0 : pydict (list Z),
  exists table,
    parse_commands items table0 = (Ok tt, table)
    /\ (forall p, In p (dict_keys table) <->
                  In p (dict_keys table0) \/ In p (map fst items))
    /\ (NoDup (map fst items) ->
        (forall p, In p (map fst items) -> ~ In p (dict_keys table0)) ->
        dict_keys table = dict_keys table0 ++ map fst items).
Proof.
  induction 1 as [|[phrase v] l Hfin _ IH]; intros table0; simpl.
  - exists table0. split; [reflexivity|]. split; [intuition|].
    intros _ _. rewrite app_nil_r. reflexivity.
  - unfold entry_finite in Hfin. simpl in Hfin.
    destruct (parse_angles_finite _ Hfin []) as [stored Hp]. rewrite Hp. simpl.
    destruct (IH (dict_set phrase stored table0)) as [table [Ht [Hk Ho]]].
    exists table. split; [exact Ht|]. split.
    + intros p. rewrite Hk, dict_keys_set. intuition.
    + intros Hnd Hfresh. inversion Hnd as [|? ? Hnin Hnd']; subst.
      assert (Hset : dict_set phrase stored table0 = table0 ++ [(phrase, stored)]).
      { apply dict_set_fresh. apply Hfresh. left. reflexivity. }
      rewrite Ho.
      * rewrite Hset. unfold dict_keys. rewrite map_app, <- app_assoc.
        reflexivity.
      * exact Hnd'.
      * intros p Hp' Hin. apply dict_keys_set in Hin.
        destruct Hin as [->|Hin]; [exact (Hnin Hp')|].
        apply (Hfresh p); [right; exact Hp'|exact Hin].
Qed.

Lemma reconfigure_parse {C : Collaborators} (self : Service)
    (config : ComponentConfig) (dependencies : list (ResourceName * resource)) :
  fst (reconfigure self config dependencies)
  = fst (parse_commands (commands_of config) [])
  /\ commands (snd (reconfigure self config dependencies))
     = Some (snd (parse_commands (commands_of config) [])).
Proof.
  unfold reconfigure. fold (commands_of config).
  destruct (parse_commands (commands_of config) []) as [r table]. auto.
Qed.

(** With the phrases of the configuration pairwise distinct, as the keys of
    a mapping are, the table of a validated configuration lists the phrases
    in the configuration's order, and looking a configured phrase up gives
    the truncations of that phrase's own angles. *)
Theorem table_keeps_configuration_order {C : Collaborators} (self : Service)
    (config : ComponentConfig) (dependencies : list (ResourceName * resource))
    (names : list string * list string) :
  validate_config config = Ok names ->
  NoDup (map fst (commands_of config)) ->
  exists self' table,
    reconfigure self config dependencies = (Ok tt, self')
    /\ commands self' = Some table
    /\ dict_keys table = map fst (commands_of config)
    /\ forall phrase angles_value,
         In (phrase, angles_value) (commands_of config) ->
         exists angles,
           dict_get phrase table = Some angles
           /\ Forall2 stored_as (list_value_values angles_value) angles.
Proof.
  intros Hv Hnd.
  destruct (reconfigure_validated self config dependencies names Hv)
    as [self' [table [Hr [Hc [_ [Hk He]]]]]].
  exists self', table. split; [exact Hr|]. split; [exact Hc|]. split.
  - pose proof (validate_ok_entries config names Hv) as Hall.
    assert (Hfin : Forall entry_finite (commands_of config)).
    { eapply Forall_impl; [|exact Hall]. apply entry_accepted_finite. }
    destruct (parse_commands_finite _ Hfin []) as [table' [Hp [_ Ho]]].
    destruct (reconfigure_parse self config dependencies) as [_ Hcmd].
    rewrite Hr, Hp in Hcmd. simpl in Hcmd. rewrite Hc in Hcmd.
    injection Hcmd as ->. apply Ho; [exact Hnd|]. intros p _ [].
  - intros phrase v Hin.
    assert (Hkey : In phrase (dict_keys table)).
    { apply Hk. apply (in_map fst) in Hin. exact Hin. }
    destruct (dict_get_key phrase table Hkey) as [angles Hget].
    exists angles. split; [exact Hget|].
    destruct (He phrase angles (dict_get_In _ _ _ Hget)) as [v' [Hv' Hs]].
    rewrite (NoDup_keys_same_value phrase v v' _ Hnd Hin Hv'). exact Hs.
Qed.

(** The configuration [{"b": [20.5, 30], "a": [10]}]. *)
Lemma table_keeps_configuration_order_witness :
  exists self' table,
    reconfigure (C := demo) fresh_instance
      (make_config "mic" "arm"
         [("b", [Finite (41 # 2); Finite 30]); ("a", [Finite 10])]) []
    = (Ok tt, self')
    /\ commands self' = Some table
    /\ dict_keys table
       = map fst (commands_of
                    (make_config "mic" "arm"
                       [("b", [Finite (41 # 2); Finite 30]); ("a", [Finite 10])]))
    /\ forall phrase angles_value,
         In (phrase, angles_value)
            (commands_of
               (make_config "mic" "arm"
                  [("b", [Finite (41 # 2); Finite 30]); ("a", [Finite 10])])) ->
         exists angles,
           dict_get phrase table = Some angles
           /\ Forall2 stored_as (list_value_values angles_value) angles.
Proof.
  apply (table_keeps_configuration_order (C := demo) fresh_instance
           (make_config "mic" "arm"
              [("b", [Finite (41 # 2); Finite 30]); ("a", [Finite 10])])
           [] (["mic"; "arm"], [])).
  - reflexivity.
  - simpl. repeat constructor; simpl; intuition discriminate.
Defined.

(** ** [reconfigure] without validation *)

Lemma entry_finite_dec (entry : string * Value) :
  {entry_finite entry} + {~ entry_finite entry}.
Proof.
  apply Forall_dec. intros a. apply bool_dec.
Qed.

Lemma parse_commands_raise (items : list (string * Value)) :
  Exists (fun entry => ~ entry_finite entry) items ->
  forall table0 : pydict (list Z),
  exists e table, parse_commands items table0 = (Raise e, table).
Proof.
  induction items as [|[phrase v] l IH]; intros H table0; [inversion H|].
  simpl. destruct (entry_finite_dec (phrase, v)) as [Hfin|Hbad].
  - unfold entry_finite in Hfin. simpl in Hfin.
    destruct (parse_angles_finite _ Hfin []) as [stored Hp]. rewrite Hp.
    apply IH. inversion H as [? ? Hb|? ? Hb]; subst; [contradiction|exact Hb].
  - assert (Hex : Exists (fun a => finite (number_value a) = false)
                    (list_value_values v)).
    { apply Exists_exists.
      destruct (Forall_Exists_dec (fun a => finite (number_value a) = true)
                  (fun a => bool_dec (finite (number_value a)) true)
                  (list_value_values v)) as [Hall|Hex]; [contradiction|].
      apply Exists_exists in Hex. destruct Hex as [a [Ha Hf]].
      exists a. split; [exact Ha|].
      destruct (finite (number_value a)); congruence. }
    destruct (parse_angles_raise _ Hex []) as [e He]. rewrite He.
    eexists _, _. reflexivity.
Qed.

(** [reconfigure] checks no range of its own: it raises exactly when some
    angle of the configuration is NaN or an infinity, which [int()] cannot
    convert, and returns on every other configuration. *)
Theorem reconfigure_fails_iff_non_finite {C : Collaborators} (self : Service)
    (config : ComponentConfig) (dependencies : list (ResourceName * resource)) :
  (exists e, fst (reconfigure self config dependencies) = Raise e)
  <-> exists phrase angles_value angle_value,
        In (phrase, angles_value) (commands_of config)
        /\ In angle_value (list_value_values angles_value)
        /\ finite (number_value angle_value) = false.
Proof.
  destruct (reconfigure_parse self config dependencies) as [-> _].
  destruct (Forall_Exists_dec entry_finite entry_finite_dec (commands_of config))
    as [Hall|Hex].
  - destruct (parse_commands_finite _ Hall []) as [table [Hp _]]. rewrite Hp.
    split.
    + intros [e He]. discriminate.
    + intros [phrase [v [a [Hin [Ha Hf]]]]]. exfalso.
      rewrite Forall_forall in Hall. specialize (Hall _ Hin).
      unfold entry_finite in Hall. simpl in Hall.
      rewrite Forall_forall in Hall. specialize (Hall a Ha). congruence.
  - destruct (parse_commands_raise _ Hex []) as [e [table Hp]]. rewrite Hp.
    split; [intros _|intros _; exists e; reflexivity].
    apply Exists_exists in Hex. destruct Hex as [[phrase v] [Hin Hbad]].
    exists phrase, v.
    destruct (Forall_Exists_dec (fun a => finite (number_value a) = true)
                (fun a => bool_dec (finite (number_value a)) true)
                (list_value_values v)) as [Hall|Hex']; [contradiction|].
    apply Exists_exists in Hex'. destruct Hex' as [a [Ha Hf]].
    exists a. split; [exact Hin|]. split; [exact Ha|].
    destruct (finite (number_value a)); congruence.
Qed.

(** A [reconfigure] that fails is not undone: the table it leaves holds the
    phrases that came before the failing one, and nothing of the table the
    service had before. *)
Theorem failed_reconfigure_leaves_partial_table {C : Collaborators}
    (self : Service) (config : ComponentConfig)
    (dependencies : list (ResourceName * resource))
    (good rest : list (string * Value)) (phrase : string) (angles_value : Value) :
  commands_of config = good ++ (phrase, angles_value) :: rest ->
  Forall entry_finite good ->
  ~ entry_finite (phrase, angles_value) ->
  exists e table,
    fst (reconfigure self config dependencies) = Raise e
    /\ commands (snd (reconfigure self config dependencies)) = Some table
    /\ forall p, In p (dict_keys table) <-> In p (map fst good).
Proof.
  intros Hsplit Hgood Hbad.
  destruct (reconfigure_parse self config dependencies) as [-> ->].
  rewrite Hsplit, parse_commands_app.
  destruct (parse_commands_finite _ Hgood []) as [table [Hp [Hk _]]].
  rewrite Hp.
  assert (Hex : Exists (fun entry => ~ entry_finite entry)
                  [(phrase, angles_value)]) by (constructor; exact Hbad).
  destruct (parse_commands_raise _ Hex table) as [e [table' Hp']].
  simpl in Hp' |- *.
  destruct (parse_angles (list_value_values angles_value) []) as [angles|e'].
  - discriminate.
  - exists e', table. simpl. split; [reflexivity|]. split; [reflexivity|].
    intros p. rewrite Hk. simpl. intuition.
Qed.

Lemma failed_reconfigure_leaves_partial_table_witness :
  exists e table,
    fst (reconfigure (C := demo)
           (demo_service (Some "mic") (Some "arm") (Some table_a_b))
           (make_config "mic" "arm"
              [("wave", [Finite 90]); ("bow", [NaN]); ("nod", [Finite 5])]) [])
    = Raise e
    /\ commands
         (snd (reconfigure (C := demo)
                 (demo_service (Some "mic") (Some "arm") (Some table_a_b))
                 (make_config "mic" "arm"
                    [("wave", [Finite 90]); ("bow", [NaN]); ("nod", [Finite 5])])
                 []))
       = Some table
    /\ forall p,
         In p (dict_keys table)
         <-> In p (map fst [("wave", list_kind [number_kind (Finite 90)])]).
Proof.
  apply (failed_reconfigure_leaves_partial_table (C := demo)
           (demo_service (Some "mic") (Some "arm") (Some table_a_b))
           (make_config "mic" "arm"
              [("wave", [Finite 90]); ("bow", [NaN]); ("nod", [Finite 5])]) []
           [("wave", list_kind [number_kind (Finite 90)])]
           [("nod", list_kind [number_kind (Finite 5)])]
           "bow" (list_kind [number_kind NaN])).
  - reflexivity.
  - constructor; [|constructor]. constructor; [reflexivity|constructor].
  - intros H. inversion H as [|? ? Hf _]. discriminate.
Defined.

(** ** Binding the dependencies *)

Lemma reconfigure_fields {C : Collaborators} (self : Service)
    (config : ComponentConfig) (dependencies : list (ResourceName * resource)) :
  speech_service (snd (reconfigure self config dependencies))
  = speech_service (bind_dependencies (speech_service_name_of config)
                      (servo_name_of config) dependencies self)
  /\ servo (snd (reconfigure self config dependencies))
     = servo (bind_dependencies (speech_service_name_of config)
                (servo_name_of config) dependencies self).
Proof.
  unfold reconfigure, speech_service_name_of, servo_name_of.
  destruct (parse_commands _ []) as [r table]. auto.
Qed.

Lemma bind_dependencies_app {C : Collaborators} (sn vn : string)
    (deps1 deps2 : list (ResourceName * resource)) :
  forall self,
    bind_dependencies sn vn (deps1 ++ deps2) self
    = bind_dependencies sn vn deps2 (bind_dependencies sn vn deps1 self).
Proof.
  induction deps1 as [|[rn r] rest IH]; intros self; simpl;
    [reflexivity|apply IH].
Qed.

Lemma bind_dependencies_cons {C : Collaborators} (sn vn : string)
    (d : ResourceName * resource) (rest : list (ResourceName * resource))
    (self : Service) :
  bind_dependencies sn vn (d :: rest) self
  = bind_dependencies sn vn rest (bind_dependencies sn vn [d] self).
Proof. destruct d. reflexivity. Qed.

(** What one dependency does to the two fields. *)
Lemma bind_dependencies_one {C : Collaborators} (sn vn : string)
    (rn : ResourceName) (r : resource) (self : Service) :
  speech_service (bind_dependencies sn vn [(rn, r)] self)
  = (if String.eqb (name rn) sn then Some r else speech_service self)
  /\ servo (bind_dependencies sn vn [(rn, r)] self)
     = (if String.eqb (name rn) vn then Some r else servo self).
Proof.
  simpl. destruct (String.eqb (name rn) sn), (String.eqb (name rn) vn); auto.
Qed.

Lemma bind_dependencies_unnamed {C : Collaborators} (sn vn : string)
    (dependencies : list (ResourceName * resource)) :
  forall self,
    (unnamed sn dependencies ->
     speech_service (bind_dependencies sn vn dependencies self)
     = speech_service self)
    /\ (unnamed vn dependencies ->
        servo (bind_dependencies sn vn dependencies self) = servo self).
Proof.
  unfold unnamed.
  induction dependencies as [|[rn r] rest IH]; intros self; [simpl; auto|].
  rewrite bind_dependencies_cons.
  destruct (IH (bind_dependencies sn vn [(rn, r)] self)) as [IHs IHv].
  destruct (bind_dependencies_one sn vn rn r self) as [Hs Hv].
  split; intros H; inversion H as [|? ? Hne Hrest]; subst; simpl in Hne.
  - rewrite (IHs Hrest), Hs.
    destruct (String.eqb_spec (name rn) sn); [contradiction|reflexivity].
  - rewrite (IHv Hrest), Hv.
    destruct (String.eqb_spec (name rn) vn); [contradiction|reflexivity].
Qed.

(** The last dependency of a name is the one that stays bound. *)
Lemma bind_dependencies_last {C : Collaborators} (sn vn : string)
    (before after : list (ResourceName * resource)) (rn : ResourceName)
    (r : resource) (self : Service) :
  unnamed (name rn) after ->
  (name rn = sn ->
   speech_service (bind_dependencies sn vn (before ++ (rn, r) :: after) self)
   = Some r)
  /\ (name rn = vn ->
      servo (bind_dependencies sn vn (before ++ (rn, r) :: after) self)
      = Some r).
Proof.
  intros Hafter. rewrite bind_dependencies_app, bind_dependencies_cons.
  set (self1 := bind_dependencies sn vn before self).
  destruct (bind_dependencies_unnamed sn vn after
              (bind_dependencies sn vn [(rn, r)] self1)) as [Hs Hv].
  destruct (bind_dependencies_one sn vn rn r self1) as [Hs1 Hv1].
  split; intros <-.
  - rewrite (Hs Hafter), Hs1, String.eqb_refl. reflexivity.
  - rewrite (Hv Hafter), Hv1, String.eqb_refl. reflexivity.
Qed.

Lemma last_named {R : Type} (n : string) (dependencies : list (ResourceName * R)) :
  (exists d, In d dependencies /\ name (fst d) = n) ->
  exists before rn r after,
    dependencies = before ++ (rn, r) :: after
    /\ name rn = n /\ unnamed n after.
Proof.
  unfold unnamed.
  induction dependencies as [|[rn r] rest IH]; intros [d [Hin Hd]];
    [contradiction|].
  destruct (Forall_Exists_dec (fun d => name (fst d) <> n)
              (fun d => match string_dec (name (fst d)) n with
                        | left E => right (fun H => H E)
                        | right E => left E
                        end) rest) as [Hnone|Hsome].
  - destruct Hin as [<-|Hin].
    + exists [], rn, r, rest. auto.
    + rewrite Forall_forall in Hnone. exfalso. exact (Hnone d Hin Hd).
  - apply Exists_exists in Hsome. destruct Hsome as [d' [Hin' Hd']].
    destruct IH as [before [rn' [r' [after [Hsplit [Hn Hafter]]]]]].
    + exists d'. split; [exact Hin'|].
      destruct (string_dec (name (fst d')) n); [assumption|contradiction].
    + exists ((rn, r) :: before), rn', r', after. rewrite Hsplit. auto.
Qed.

(** Of the dependencies that bear the configured name of the speech service
    or of the servo, [reconfigure] keeps the last in the order of the
    mapping; a dependency that bears both names is bound to both fields. *)
Theorem reconfigure_binds_last_named {C : Collaborators} (self : Service)
    (config : ComponentConfig)
    (before after : list (ResourceName * resource)) (rn : ResourceName)
    (r : resource) :
  unnamed (name rn) after ->
  (name rn = speech_service_name_of config ->
   speech_service (snd (reconfigure self config (before ++ (rn, r) :: after)))
   = Some r)
  /\ (name rn = servo_name_of config ->
      servo (snd (reconfigure self config (before ++ (rn, r) :: after)))
      = Some r).
Proof.
  intros Hafter.
  destruct (reconfigure_fields self config (before ++ (rn, r) :: after))
    as [-> ->].
  apply bind_dependencies_last, Hafter.
Qed.

Lemma reconfigure_binds_last_named_witness :
  servo (snd (reconfigure (C := demo) fresh_instance
                (make_config "mic" "arm" [("wave", [Finite 90])])
                ([(resource_named "arm", "old arm")]
                 ++ (resource_named "arm", "new arm")
                    :: [(resource_named "mic", "mic")])))
  = Some "new arm".
Proof.
  apply (reconfigure_binds_last_named (C := demo) fresh_instance
           (make_config "mic" "arm" [("wave", [Finite 90])])
           [(resource_named "arm", "old arm")]
           [(resource_named "mic", "mic")]
           (resource_named "arm") "new arm").
  - constructor; [discriminate|constructor].
  - reflexivity.
Defined.

(** A field whose configured name no dependency bears is left as it was:
    unset on a fresh instance, and bound to the resource of the previous
    configuration otherwise. [reconfigure] raises nothing for it. *)
Theorem reconfigure_keeps_unfound_fields {C : Collaborators} (self : Service)
    (config : ComponentConfig) (dependencies : list (ResourceName * resource))
    (names : list string * list string) :
  validate_config config = Ok names ->
  fst (reconfigure self config dependencies) = Ok tt
  /\ (unnamed (speech_service_name_of config) dependencies ->
      speech_service (snd (reconfigure self config dependencies))
      = speech_service self)
  /\ (unnamed (servo_name_of config) dependencies ->
      servo (snd (reconfigure self config dependencies)) = servo self).
Proof.
  intros Hv. split.
  - destruct (reconfigure_validated self config dependencies names Hv)
      as [self' [table [Hr _]]].
    rewrite Hr. reflexivity.
  - destruct (reconfigure_fields self config dependencies) as [-> ->].
    apply bind_dependencies_unnamed.
Qed.

Lemma reconfigure_keeps_unfound_fields_witness :
  fst (reconfigure (C := demo)
         (demo_service (Some "mic") (Some "arm") (Some table_a_b))
         (make_config "mic" "claw" [("wave", [Finite 90])])
         [(resource_named "mic", "mic")])
  = Ok tt
  /\ servo (snd (reconfigure (C := demo)
                   (demo_service (Some "mic") (Some "arm") (Some table_a_b))
                   (make_config "mic" "claw" [("wave", [Finite 90])])
                   [(resource_named "mic", "mic")]))
     = Some "arm".
Proof.
  destruct (reconfigure_keeps_unfound_fields (C := demo)
              (demo_service (Some "mic") (Some "arm") (Some table_a_b))
              (make_config "mic" "claw" [("wave", [Finite 90])])
              [(resource_named "mic", "mic")] (["mic"; "claw"], []) eq_refl)
    as [Hok [_ Hservo]].
  split; [exact Hok|]. apply Hservo.
  constructor; [discriminate|constructor].
Defined.

(** [new] after a successful validation, with a dependency for each of the
    two names: the instance is made, both collaborators are bound to
    resources of the mapping, and the table is set. *)
Theorem new_binds_everything {C : Collaborators} (config : ComponentConfig)
    (dependencies : list (ResourceName * resource))
    (names : list string * list string) :
  validate_config config = Ok names ->
  (exists d, In d dependencies /\ name (fst d) = speech_service_name_of config) ->
  (exists d, In d dependencies /\ name (fst d) = servo_name_of config) ->
  exists self sp sv table,
    new config dependencies = (Ok tt, self)
    /\ speech_service self = Some sp /\ In sp (map snd dependencies)
    /\ servo self = Some sv /\ In sv (map snd dependencies)
    /\ commands self = Some table.
Proof.
  intros Hv Hsp Hsv. unfold new.
  destruct (reconfigure_validated fresh_instance config dependencies names Hv)
    as [self [table [Hr [Hc _]]]].
  destruct (last_named _ _ Hsp) as [b1 [rn1 [r1 [a1 [Hd1 [Hn1 Ha1]]]]]].
  destruct (last_named _ _ Hsv) as [b2 [rn2 [r2 [a2 [Hd2 [Hn2 Ha2]]]]]].
  exists self, r1, r2, table. split; [exact Hr|].
  destruct (reconfigure_fields fresh_instance config dependencies) as [Fs Fv].
  rewrite Hr in Fs, Fv. simpl in Fs, Fv.
  rewrite <- Hn1 in Ha1. rewrite <- Hn2 in Ha2.
  split; [|split; [|split; [|split]]].
  - rewrite Fs, Hd1.
    apply (bind_dependencies_last _ _ b1 a1 rn1 r1 fresh_instance Ha1), Hn1.
  - rewrite Hd1, map_app. apply in_or_app. right. left. reflexivity.
  - rewrite Fv, Hd2.
    apply (bind_dependencies_last _ _ b2 a2 rn2 r2 fresh_instance Ha2), Hn2.
  - rewrite Hd2, map_app. apply in_or_app. right. left. reflexivity.
  - exact Hc.
Qed.

Lemma new_binds_everything_witness :
  exists self sp sv table,
    new (C := demo) (make_config "mic" "arm" [("wave", [Finite 90])])
      [(resource_named "arm", "arm"); (resource_named "mic", "mic")]
    = (Ok tt, self)
    /\ speech_service self = Some sp
    /\ In sp (map snd [(resource_named "arm", "arm"); (resource_named "mic", "mic")])
    /\ servo self = Some sv
    /\ In sv (map snd [(resource_named "arm", "arm"); (resource_named "mic", "mic")])
    /\ commands self = Some table.
Proof.
  apply (new_binds_everything (C := demo)
           (make_config "mic" "arm" [("wave", [Finite 90])])
           [(resource_named "arm", "arm"); (resource_named "mic", "mic")]
           (["mic"; "arm"], [])).
  - reflexivity.
  - exists (resource_named "mic", "mic"). split; [right; left|]; reflexivity.
  - exists (resource_named "arm", "arm"). split; [left|]; reflexivity.
Defined.

(** ** What a dispatch does to the outside, whatever happens *)

Section DispatchEvents.
Context {L : StrLower} {C : Collaborators}.

Lemma through_event_cons (self : Service) (phrase : string) (angle : Z)
    (angles : list Z) (ev : event) :
  through_event self phrase angles ev ->
  through_event self phrase (angle :: angles) ev.
Proof. destruct ev; simpl; intuition. Qed.

Lemma move_through_events (self : Service) (phrase : string) (angles : list Z) :
  forall m : machine,
  exists evs,
    trace (snd (move_through self phrase angles m)) = trace m ++ evs
    /\ Forall (through_event self phrase angles) evs.
Proof.
  induction angles as [|angle rest IH]; intros m.
  - exists []. simpl. rewrite app_nil_r. split; constructor.
  - simpl. destruct (servo self) as [sv|] eqn:Hsv;
      unfold bind, attr, ret, raise, emit, call; simpl.
    + destruct (move sv angle (outside m)) as [[u|e] w]; simpl.
      * destruct (IH {| outside := w;
                        trace := ((trace m ++ [EMove sv angle]) ++ [ESleep 1])
                                 ++ [ELogDebug angle phrase] |})
          as [evs [Ht Hf]].
        exists (EMove sv angle :: ESleep 1 :: ELogDebug angle phrase :: evs).
        rewrite Ht. simpl. rewrite <- !app_assoc. split; [reflexivity|].
        repeat constructor; simpl; auto.
        eapply Forall_impl; [|exact Hf]. intros ev. apply through_event_cons.
      * exists [EMove sv angle]. split; [reflexivity|].
        repeat constructor; simpl; auto.
    + exists []. rewrite app_nil_r. split; constructor.
Qed.

Lemma loop_event_cons (self : Service) (heard_text : string)
    (table : pydict (list Z)) (phrase : string) (keys : list string)
    (ev : event) :
  loop_event self heard_text table keys ev ->
  loop_event self heard_text table (phrase :: keys) ev.
Proof.
  intros [p [Hin H]]. exists p. split; [right; exact Hin|exact H].
Qed.

Lemma scan_phrases_events (self : Service) (heard_text : string)
    (table : pydict (list Z)) (keys : list string) :
  forall (commands_heard : list string) (m : machine),
  exists evs,
    trace (snd (scan_phrases self heard_text table keys commands_heard m))
    = trace m ++ evs
    /\ Forall (loop_event self heard_text table keys) evs.
Proof.
  induction keys as [|phrase rest IH]; intros acc m.
  - exists []. simpl. rewrite app_nil_r. split; constructor.
  - simpl. destruct (contains (lower phrase) (lower heard_text)) eqn:E.
    + unfold bind at 1. unfold getitem.
      destruct (dict_get phrase table) as [angles|] eqn:G; unfold ret, raise.
      * unfold bind at 1.
        destruct (move_through_events self phrase angles m) as [evs1 [H1 F1]].
        assert (F1' : Forall (loop_event self heard_text table (phrase :: rest))
                        evs1).
        { eapply Forall_impl; [|exact F1]. intros ev Hev. exists phrase.
          split; [left; reflexivity|]. split; [exact E|].
          unfold angles_of. rewrite G. exact Hev. }
        destruct (move_through self phrase angles m) as [[u|e] m1]; simpl in H1.
        -- destruct (IH (acc ++ [phrase]) m1) as [evs2 [H2 F2]].
           exists (evs1 ++ evs2). rewrite H2, H1, app_assoc.
           split; [reflexivity|]. apply Forall_app. split; [exact F1'|].
           eapply Forall_impl; [|exact F2]. intros ev. apply loop_event_cons.
        -- exists evs1. auto.
      * exists []. simpl. rewrite app_nil_r. split; constructor.
    + destruct (IH acc m) as [evs [H F]]. exists evs. split; [exact H|].
      eapply Forall_impl; [|exact F]. intros ev. apply loop_event_cons.
Qed.

(** Without a servo the loop goes on as long as there is nothing to move,
    and raises at the first angle. *)
Lemma scan_phrases_no_servo (self : Service) (heard_text : string)
    (table : pydict (list Z)) (keys : list string) :
  servo self = None ->
  (forall phrase, In phrase keys -> In phrase (dict_keys table)) ->
  forall (commands_heard : list string) (m : machine),
    scan_phrases self heard_text table keys commands_heard m
    = match steps_of table
              (filter (fun phrase => contains (lower phrase) (lower heard_text))
                      keys) with
      | [] => (Ok (commands_heard
                   ++ filter (fun phrase =>
                                contains (lower phrase) (lower heard_text)) keys),
               m)
      | _ :: _ => (Raise (AttributeError "servo"), m)
      end.
Proof.
  intros Hsv. induction keys as [|phrase rest IH]; intros Hkeys acc m.
  - simpl. rewrite app_nil_r. reflexivity.
  - simpl. destruct (contains (lower phrase) (lower heard_text)) eqn:E.
    + unfold bind at 1. rewrite getitem_key by (apply Hkeys; left; reflexivity).
      unfold bind at 1. unfold steps_of. simpl. fold (steps_of table).
      destruct (angles_of table phrase) as [|angle angles].
      * simpl. rewrite IH by (intros p Hp; apply Hkeys; right; exact Hp).
        rewrite <- app_assoc. reflexivity.
      * simpl. rewrite Hsv. reflexivity.
    + apply IH. intros p Hp. apply Hkeys. right. exact Hp.
Qed.

Lemma loop_events_summary (self : Service) (heard_text : string)
    (table : pydict (list Z)) (keys : list string) (evs : list event) :
  Forall (loop_event self heard_text table keys) evs ->
  polls_of evs = []
  /\ Forall (fun seconds => seconds = 1) (sleeps_of evs)
  /\ Forall (fun angle =>
               exists phrase,
                 In phrase keys
                 /\ contains (lower phrase) (lower heard_text) = true
                 /\ In angle (angles_of table phrase))
            (moves_of evs).
Proof.
  induction 1 as [|ev rest [phrase [Hin [Hc Hev]]] _ [IHp [IHs IHm]]];
    [repeat split; constructor|].
  destruct ev as [r n|r angle|seconds|angle p]; simpl in Hev |- *.
  - contradiction.
  - split; [exact IHp|]. split; [exact IHs|]. constructor; [|exact IHm].
    exists phrase. tauto.
  - split; [exact IHp|]. split; [|exact IHm]. constructor; assumption.
  - auto.
Qed.

(** The events of a [do_command]: none, or one poll of the speech service
    followed by events of the loop over the phrases. *)
Lemma do_command_events (self : Service) (command : pydict pyval)
    (m : machine) :
  exists evs,
    trace (snd (do_command self command m)) = trace m ++ evs
    /\ ((truthy (mapping_get "listen_for_command" command) = false
         \/ speech_service self = None) /\ evs = []
        \/ exists sp rest,
             truthy (mapping_get "listen_for_command" command) = true
             /\ speech_service self = Some sp
             /\ evs = EGetCommands sp 1 :: rest
             /\ (rest = []
                 \/ exists heard_text table,
                      commands self = Some table
                      /\ Forall (loop_event self heard_text table
                                   (dict_keys table)) rest)).
Proof.
  unfold do_command.
  destruct (truthy (mapping_get "listen_for_command" command)) eqn:Hflag;
    [|exists []; simpl; rewrite app_nil_r; auto].
  destruct (speech_service self) as [sp|] eqn:Hsp;
    [|exists []; simpl; rewrite app_nil_r; auto].
  unfold bind at 1. unfold attr, ret. unfold bind at 1. unfold emit.
  unfold bind at 1. unfold call. simpl outside. simpl trace.
  destruct (get_commands sp 1 (outside m)) as [[queue|e] w1];
    [|exists [EGetCommands sp 1]; split; [reflexivity|];
      right; exists sp, []; auto].
  assert (Hpoll : forall r : result (option (pydict pyval)),
             exists evs,
               trace (snd (r, {| outside := w1;
                                 trace := trace m ++ [EGetCommands sp 1] |}))
               = trace m ++ evs
               /\ ((true = false \/ Some sp = None) /\ evs = []
                   \/ exists sp0 rest,
                        true = true /\ Some sp = Some sp0
                        /\ evs = EGetCommands sp0 1 :: rest
                        /\ (rest = []
                            \/ exists heard_text table,
                                 commands self = Some table
                                 /\ Forall (loop_event self heard_text table
                                              (dict_keys table)) rest))).
  { intros r. exists [EGetCommands sp 1]. split; [reflexivity|].
    right. exists sp, []. auto. }
  destruct queue as [[|[h|] rest]|]; try apply Hpoll.
  destruct (String.eqb h ""); [apply Hpoll|].
  destruct (commands self) as [table|] eqn:Htable.
  - unfold bind at 1. unfold attr, ret. unfold bind at 1.
    destruct (scan_phrases_events self h table (dict_keys table) []
                {| outside := w1; trace := trace m ++ [EGetCommands sp 1] |})
      as [evs [Ht Hf]].
    destruct (scan_phrases self h table (dict_keys table) [] _)
      as [[l|e] m2]; simpl in Ht.
    + exists (EGetCommands sp 1 :: evs). split.
      * destruct (0 <? Z.of_nat (List.length l)); simpl; rewrite Ht, <- app_assoc;
          reflexivity.
      * right. exists sp, evs. repeat split; try reflexivity.
        right. exists h, table. auto.
    + exists (EGetCommands sp 1 :: evs). split.
      * simpl. rewrite Ht, <- app_assoc. reflexivity.
      * right. exists sp, evs. repeat split; try reflexivity.
        right. exists h, table. auto.
  - exists [EGetCommands sp 1]. split; [reflexivity|].
    right. exists sp, []. auto.
Qed.

End DispatchEvents.

(** ** Further properties of a dispatch *)

(** When the speech service raises, [do_command] raises the same exception
    right after the call: nothing is matched and the servo is not moved. *)
Theorem speech_failure_propagates {L : StrLower}
    {C : Collaborators} (self : Service)
    (command : pydict pyval) (sp : resource) (m : machine) (e : exn)
    (w1 : world) :
  truthy (mapping_get "listen_for_command" command) = true ->
  speech_service self = Some sp ->
  get_commands sp 1 (outside m) = (Raise e, w1) ->
  do_command self command m
  = (Raise e, {| outside := w1; trace := trace m ++ [EGetCommands sp 1] |}).
Proof.
  intros Hflag Hsp Hget. unfold do_command. rewrite Hflag, Hsp.
  unfold bind, attr, ret, emit, call. simpl. rewrite Hget. reflexivity.
Qed.

Lemma speech_failure_propagates_witness :
  do_command (L := ascii_text)
      (demo_service (Some "arm") (Some "arm") (Some table_a_b)) listen
    (demo_machine [Some "please do a and b now"] [])
  = (Raise (AttributeError "get_commands"),
     @Build_machine demo
       {| buffer := [Some "please do a and b now"]; reached := [];
          jammed := [] |}
       [@EGetCommands demo "arm" 1]).
Proof.
  apply (speech_failure_propagates (L := ascii_text) (C := demo)
           (demo_service (Some "arm") (Some "arm") (Some table_a_b)) listen
           "arm" (demo_machine [Some "please do a and b now"] [])
           (AttributeError "get_commands")
           {| buffer := [Some "please do a and b now"]; reached := [];
              jammed := [] |}); reflexivity.
Defined.

(** With the servo left unset, a dispatch returns its outcome as long as
    the matched phrases have no angle to move to, and raises
    [AttributeError] at the first angle otherwise, after the speech service
    was polled and its utterance consumed. *)
Theorem unset_servo_raises_at_first_move {L : StrLower}
    {C : Collaborators} (self : Service)
    (command : pydict pyval) (sp : resource) (table : pydict (list Z))
    (m : machine) (queue : option (list (option string)))
    (heard_text : string) (w1 : world) :
  truthy (mapping_get "listen_for_command" command) = true ->
  speech_service self = Some sp ->
  servo self = None ->
  commands self = Some table ->
  get_commands sp 1 (outside m) = (Ok queue, w1) ->
  first_utterance queue = Some heard_text ->
  do_command self command m
  = match steps_of table (match_phrases heard_text table) with
    | [] =>
        (Ok (Some (listen_outcome heard_text (match_phrases heard_text table))),
         {| outside := w1; trace := trace m ++ [EGetCommands sp 1] |})
    | _ :: _ =>
        (Raise (AttributeError "servo"),
         {| outside := w1; trace := trace m ++ [EGetCommands sp 1] |})
    end.
Proof.
  intros Hflag Hsp Hsv Htable Hget Hfirst.
  unfold do_command. rewrite Hflag, Hsp.
  unfold bind at 1. unfold attr, ret.
  unfold bind at 1. unfold emit.
  unfold bind at 1. unfold call. simpl outside. rewrite Hget. simpl trace.
  destruct queue as [[|[h|] rest]|]; simpl in Hfirst; try discriminate.
  destruct (String.eqb h "") eqn:Eh; [discriminate|].
  injection Hfirst as ->. rewrite Htable.
  unfold bind at 1. unfold bind at 1.
  rewrite (scan_phrases_no_servo self heard_text table (dict_keys table) Hsv)
    by auto.
  fold (match_phrases heard_text table).
  destruct (steps_of table (match_phrases heard_text table)); [|reflexivity].
  simpl app. unfold listen_outcome.
  destruct (match_phrases heard_text table); reflexivity.
Qed.

Lemma unset_servo_raises_at_first_move_witness :
  do_command (L := ascii_text)
      (demo_service (Some "mic") None (Some table_a_b)) listen
    (demo_machine [Some "please do a and b now"] [])
  = (Raise (AttributeError "servo"),
     @Build_machine demo {| buffer := []; reached := []; jammed := [] |}
       [@EGetCommands demo "mic" 1]).
Proof.
  apply (unset_servo_raises_at_first_move (L := ascii_text) (C := demo)
           (demo_service (Some "mic") None (Some table_a_b)) listen "mic"
           table_a_b (demo_machine [Some "please do a and b now"] [])
           (Some [Some "please do a and b now"]) "please do a and b now"
           {| buffer := []; reached := []; jammed := [] |}); reflexivity.
Defined.

Lemma polls_of_app {C : Collaborators} (events1 events2 : list event) :
  polls_of (events1 ++ events2) = polls_of events1 ++ polls_of events2.
Proof.
  induction events1 as [|ev rest IH]; simpl; [reflexivity|].
  destruct ev; simpl; rewrite IH; reflexivity.
Qed.

(** A [do_command] that listens polls the speech service exactly once, for
    one utterance, however the dispatch ends. *)
Theorem one_poll_per_dispatch {L : StrLower}
    {C : Collaborators} (self : Service)
    (command : pydict pyval) (sp : resource) (m : machine) :
  truthy (mapping_get "listen_for_command" command) = true ->
  speech_service self = Some sp ->
  polls_of (trace (snd (do_command self command m)))
  = polls_of (trace m) ++ [(sp, 1)].
Proof.
  intros Hflag Hsp.
  destruct (do_command_events self command m) as [evs [Ht Hevs]].
  rewrite Ht, polls_of_app. f_equal.
  destruct Hevs as [[[H|H] _]|[sp' [rest [_ [Hsp' [-> Hrest]]]]]];
    [congruence|congruence|].
  assert (sp' = sp) as -> by congruence. simpl. f_equal.
  destruct Hrest as [->|[heard_text [table [_ Hf]]]]; [reflexivity|].
  apply (loop_events_summary self heard_text table (dict_keys table) rest Hf).
Qed.

Lemma one_poll_per_dispatch_witness :
  polls_of (trace (snd (do_command (L := ascii_text) service_a_b listen
                          (demo_machine [Some "please do a and b now"] [20]))))
  = polls_of (trace (demo_machine [Some "please do a and b now"] [20]))
    ++ [("mic", 1)].
Proof.
  apply (one_poll_per_dispatch (L := ascii_text) (C := demo)
              service_a_b listen "mic"
           (demo_machine [Some "please do a and b now"] [20]));
    reflexivity.
Defined.

Lemma do_command_moves {L : StrLower} {C : Collaborators} (self : Service)
    (command : pydict pyval) (m : machine) :
  exists evs,
    trace (snd (do_command self command m)) = trace m ++ evs
    /\ Forall (fun seconds => seconds = 1) (sleeps_of evs)
    /\ Forall (fun angle =>
                 exists table phrase,
                   commands self = Some table
                   /\ In phrase (dict_keys table)
                   /\ In angle (angles_of table phrase))
              (moves_of evs).
Proof.
  destruct (do_command_events self command m) as [evs [Ht Hevs]].
  exists evs. split; [exact Ht|].
  destruct Hevs as [[_ ->]|[sp [rest [_ [_ [-> Hrest]]]]]];
    [split; constructor|].
  simpl. destruct Hrest as [->|[heard_text [table [Htable Hf]]]];
    [split; constructor|].
  destruct (loop_events_summary self heard_text table (dict_keys table) rest Hf)
    as [_ [Hs Hm]].
  split; [exact Hs|]. eapply Forall_impl; [|exact Hm].
  intros angle [phrase [Hin [_ Ha]]]. exists table, phrase. auto.
Qed.

(** Whatever the collaborators do and however a [do_command] ends, every
    angle it sends to the servo is an angle that the table holds for one of
    its phrases, and every sleep it takes is of one second. *)
Theorem moves_come_from_the_table {L : StrLower}
    {C : Collaborators} (self : Service)
    (command : pydict pyval) (m : machine) :
  exists evs,
    trace (snd (do_command self command m)) = trace m ++ evs
    /\ Forall (fun seconds => seconds = 1) (sleeps_of evs)
    /\ Forall (fun angle =>
                 exists table phrase,
                   commands self = Some table
                   /\ In phrase (dict_keys table)
                   /\ In angle (angles_of table phrase))
              (moves_of evs).
Proof. exact (do_command_moves self command m). Qed.

(** On a service configured from a validated configuration, no
    [do_command] ever sends the servo an angle outside [0, 180]. *)
Theorem servo_angles_always_in_range {L : StrLower}
    {C : Collaborators} (self0 self : Service)
    (config : ComponentConfig) (dependencies : list (ResourceName * resource))
    (names : list string * list string) (command : pydict pyval)
    (m : machine) :
  validate_config config = Ok names ->
  reconfigure self0 config dependencies = (Ok tt, self) ->
  exists evs,
    trace (snd (do_command self command m)) = trace m ++ evs
    /\ Forall (fun angle => 0 <= angle <= 180) (moves_of evs).
Proof.
  intros Hv Hr.
  destruct (reconfigure_validated self0 config dependencies names Hv)
    as [self' [table [Hr' [Hc [_ [_ He]]]]]].
  assert (self' = self) as -> by congruence.
  destruct (do_command_moves self command m) as [evs [Ht [_ Hm]]].
  exists evs. split; [exact Ht|]. eapply Forall_impl; [|exact Hm].
  intros angle [table' [phrase [Htable [Hin Ha]]]].
  assert (table' = table) as -> by congruence.
  destruct (dict_get_key phrase table Hin) as [angles Hget].
  unfold angles_of in Ha. rewrite Hget in Ha.
  destruct (He phrase angles (dict_get_In _ _ _ Hget)) as [v [_ Hs]].
  pose proof (Forall2_stored_bounds _ _ Hs) as Hb.
  rewrite Forall_forall in Hb. apply Hb, Ha.
Qed.

Lemma servo_angles_always_in_range_witness :
  (exists evs,
     trace (snd (do_command (L := ascii_text)
                   (demo_service (Some "mic") (Some "arm")
                      (Some [("wave", [90])]))
                   listen (demo_machine [Some "Wave twice"] [])))
     = trace (demo_machine [Some "Wave twice"] []) ++ evs
     /\ Forall (fun angle => 0 <= angle <= 180) (moves_of evs))
  /\ moves_of (trace (snd (do_command (L := ascii_text)
                             (demo_service (Some "mic") (Some "arm")
                                (Some [("wave", [90])]))
                             listen (demo_machine [Some "Wave twice"] []))))
     = [90].
Proof.
  split; [|reflexivity].
  apply (servo_angles_always_in_range (L := ascii_text) (C := demo)
           fresh_instance
           (demo_service (Some "mic") (Some "arm") (Some [("wave", [90])]))
           config_90_7
           [(resource_named "mic", "mic"); (resource_named "arm", "arm")]
           (["mic"; "arm"], []) listen (demo_machine [Some "Wave twice"] []));
    reflexivity.
Defined.

(** A mapping returned by [do_command] has one of three shapes, whatever
    the collaborators did: the status ["no voice command heard"] alone, or,
    for a non-empty heard text, the outcome of the phrases of the table
    that match it. *)
Theorem do_command_returns_one_of_three {L : StrLower}
    {C : Collaborators} (self : Service)
    (command : pydict pyval) (m m' : machine) (out : pydict pyval) :
  do_command self command m = (Ok (Some out), m') ->
  out = [("status", PStr "no voice command heard")]
  \/ exists heard_text table,
       commands self = Some table
       /\ heard_text <> ""
       /\ ((match_phrases heard_text table = []
            /\ out = [("status", PStr "no voice commands heard");
                      ("heard", PStr heard_text)])
           \/ (match_phrases heard_text table <> []
               /\ out = [("status", PStr "voice commands heard");
                         ("voice_commands",
                          PList (map PStr (match_phrases heard_text table)));
                         ("heard", PStr heard_text)])).
Proof.
  intros H. destruct (do_command_returns self command m m' out H)
    as [->|[heard_text [table [Ht [Hne ->]]]]]; [left; reflexivity|].
  right. exists heard_text, table. split; [exact Ht|]. split; [exact Hne|].
  unfold listen_outcome. destruct (match_phrases heard_text table).
  - left. auto.
  - right. split; [discriminate|reflexivity].
Qed.

Lemma do_command_returns_one_of_three_witness :
  [("status", PStr "no voice commands heard"); ("heard", PStr "hello")]
  = [("status", PStr "no voice command heard")]
  \/ exists heard_text table,
       commands service_a_b = Some table
       /\ heard_text <> ""
       /\ ((match_phrases (L := ascii_text) heard_text table = []
            /\ [("status", PStr "no voice commands heard");
                ("heard", PStr "hello")]
               = [("status", PStr "no voice commands heard");
                  ("heard", PStr heard_text)])
           \/ (match_phrases (L := ascii_text) heard_text table <> []
               /\ [("status", PStr "no voice commands heard");
                   ("heard", PStr "hello")]
                  = [("status", PStr "voice commands heard");
                     ("voice_commands",
                      PList (map PStr (match_phrases (L := ascii_text)
                          heard_text table)));
                     ("heard", PStr heard_text)])).
Proof.
  apply (do_command_returns_one_of_three (L := ascii_text) (C := demo)
              service_a_b listen
           (demo_machine [Some "hello"] [])
           (@Build_machine demo {| buffer := []; reached := []; jammed := [] |}
              [@EGetCommands demo "mic" 1])).
  reflexivity.
Defined.

Lemma string_append_assoc (a b c : string) :
  ((a ++ b) ++ c)%string = (a ++ b ++ c)%string.
Proof.
  induction a as [|ch a IH]; simpl; [reflexivity|]. rewrite IH. reflexivity.
Qed.

Lemma contains_trans (a b c : string) :
  contains a b = true -> contains b c = true -> contains a c = true.
Proof.
  rewrite !contains_spec. intros [pre1 [post1 ->]] [pre2 [post2 ->]].
  exists (pre2 ++ pre1)%string, (post1 ++ post2)%string.
  rewrite !string_append_assoc. reflexivity.
Qed.

(** Among the phrases a dispatch reports as heard, a phrase is never alone
    when another phrase of the table is contained in it (case aside): the
    contained phrase is reported too. *)
Theorem contained_phrase_also_matches {L : StrLower}
    {C : Collaborators} (self : Service)
    (command : pydict pyval) (m m' : machine) (out : pydict pyval)
    (table : pydict (list Z)) (reported : list pyval) (inner outer : string) :
  do_command self command m = (Ok (Some out), m') ->
  commands self = Some table ->
  dict_get "voice_commands" out = Some (PList reported) ->
  In (PStr outer) reported ->
  In inner (dict_keys table) ->
  contains (lower inner) (lower outer) = true ->
  In (PStr inner) reported.
Proof.
  intros Hdo Htable Hvc Houter Hinner Hsub.
  destruct (do_command_returns self command m m' out Hdo)
    as [->|[heard_text [table' [Ht [_ ->]]]]]; [discriminate|].
  assert (table' = table) as -> by congruence.
  unfold listen_outcome in Hvc.
  destruct (match_phrases heard_text table) as [|p l] eqn:Em; [discriminate|].
  assert (Hrep : reported = map PStr (p :: l))
    by (simpl in Hvc; injection Hvc as <-; reflexivity).
  rewrite Hrep, <- Em in Houter |- *. clear Hrep Hvc.
  apply in_map_iff in Houter. destruct Houter as [x [Hx Hin]].
  injection Hx as ->. apply in_map.
  unfold match_phrases in *. apply filter_In in Hin. destruct Hin as [_ Hc].
  apply filter_In. split; [exact Hinner|].
  exact (contains_trans _ _ _ Hsub Hc).
Qed.

Lemma contained_phrase_also_matches_witness :
  In (PStr "light") [PStr "light"; PStr "light on"].
Proof.
  apply (contained_phrase_also_matches (L := ascii_text) (C := demo)
           (demo_service (Some "mic") (Some "arm")
              (Some [("light", [0]); ("light on", [90])]))
           listen (demo_machine [Some "Light ON"] [])
           (@Build_machine demo
              {| buffer := []; reached := [0; 90]; jammed := [] |}
              [@EGetCommands demo "mic" 1;
               @EMove demo "arm" 0; @ESleep demo 1; @ELogDebug demo 0 "light";
               @EMove demo "arm" 90; @ESleep demo 1;
               @ELogDebug demo 90 "light on"])
           [("status", PStr "voice commands heard");
            ("voice_commands", PList [PStr "light"; PStr "light on"]);
            ("heard", PStr "Light ON")]
           [("light", [0]); ("light on", [90])]
           [PStr "light"; PStr "light on"] "light" "light on").
  - reflexivity.
  - reflexivity.
  - reflexivity.
  - right. left. reflexivity.
  - left. reflexivity.
  - reflexivity.
Defined.
